(** * Tracker report page: the URL-fragment parser

    A verification development for [parseHash] and [containsReportData] of
    [frontend/src/pages/tracker-report.page.tsx].

    The two functions are embedded over an explicit model of the JavaScript
    values they inspect.  The platform functions they call
    ([String.prototype.substring], [decodeURIComponent], [JSON.parse],
    [Number.isInteger], [Array.isArray], [Array.prototype.every]) are
    modelled after ECMA-262; exceptions are explicit ([completion]). *)

From Stdlib Require Import ZArith List Lia Bool String Ascii.
Import ListNotations.

Local Open Scope Z_scope.

(** ** Strings

    A JavaScript string is a sequence of UTF-16 code units; a code unit is an
    integer in [0, 65535] ([is_code_unit]).

    Code units are written by their numbers.  The ones the parsers test:
    9, 10, 13, 32 white space (tab, line feed, carriage return, space);
    34 quotation mark; 35 [#]; 37 [%]; 43 [+]; 44 [,]; 45 [-]; 46 [.];
    47 [/]; 48 to 57 the digits; 58 [:]; 65 to 70 [A] to [F]; 69 [E];
    91 and 93 the square brackets; 92 reverse solidus; 97 to 102 [a] to
    [f]; 98, 102, 110, 114, 116, 117 [b], [f], [n], [r], [t], [u];
    101 [e]; 123 and 125 the braces. *)

Definition jsstring : Type := list Z.

Definition is_code_unit (c : Z) : bool := (0 <=? c) && (c <? 65536).
Definition well_formed (s : jsstring) : bool := forallb is_code_unit s.

Fixpoint jsstring_eqb (a b : jsstring) : bool :=
  match a, b with
  | [], [] => true
  | x :: a', y :: b' => (x =? y) && jsstring_eqb a' b'
  | _, _ => false
  end.

(** ASCII text as a JavaScript string. *)
Fixpoint js (s : string) : jsstring :=
  match s with
  | EmptyString => []
  | String a rest => Z.of_N (N_of_ascii a) :: js rest
  end.

(** The same, with every apostrophe standing for a quotation mark (U+0022),
    so that JSON text can be written down readably. *)
Definition jsq (s : string) : jsstring :=
  map (fun c => if c =? 39 then 34 else c) (js s).

(** [String.prototype.substring(start)]: the code units from index [start]
    on, the empty string when [start] is beyond the end. *)
Definition substring (s : jsstring) (start : nat) : jsstring := skipn start s.

(** ** Completions: normal results and thrown exceptions *)

Inductive exn : Type := URIError | SyntaxError | TypeError.

Inductive completion (A : Type) : Type :=
| Normal (a : A)
| Throw (e : exn).
Arguments Normal {A} a.
Arguments Throw {A} e.

Definition bind {A B : Type} (c : completion A) (k : A -> completion B)
  : completion B :=
  match c with
  | Normal a => k a
  | Throw e => Throw e
  end.

Notation "x <- c ;; k" := (bind c (fun x => k))
  (at level 61, c at next level, right associativity).
Notation "' pat <- c ;; k" := (bind c (fun x => match x with pat => k end))
  (at level 61, pat pattern, c at next level, right associativity).

(** [try { body } catch (e) { handler }] *)
Definition try_catch {A : Type} (body : completion A)
  (handler : exn -> completion A) : completion A :=
  match body with
  | Normal a => Normal a
  | Throw e => handler e
  end.

(** ** Numbers

    A Number is an IEEE 754 binary64 value.  A finite one is kept by its
    exact value [m * 2^e], with [m] odd, or [m = 0] and [e = 0]; the sign of
    zero, which nothing on this page observes, is not represented. *)

Inductive number : Type :=
| NaN
| Infinity (negative : bool)
| Finite (m e : Z).

(** Strip the trailing zero bits of a mantissa. *)
Fixpoint strip_zeros (p : positive) (e : Z) : positive * Z :=
  match p with
  | xO p' => strip_zeros p' (e + 1)
  | _ => (p, e)
  end.

Definition mk_finite (negative : bool) (m e : Z) : number :=
  match m with
  | Zpos p =>
      let (p', e') := strip_zeros p e in
      Finite (if negative then Zneg p' else Zpos p') e'
  | _ => Finite 0 0
  end.

(** The Number nearest to the positive rational [num / den]: round to 53
    significant bits (fewer below [2^-1022]), ties to the even significand,
    [2^1024] and beyond to infinity. *)
Definition binary64_round (negative : bool) (num den : Z) : number :=
  let e := Z.log2 num - Z.log2 den - 54 in
  let n' := if 0 <=? e then num else num * 2 ^ (- e) in
  let d' := if 0 <=? e then den * 2 ^ e else den in
  let q := n' / d' in
  let sticky := negb (n' mod d' =? 0) in
  let sh := Z.max (Z.log2 q + 1 - 53) (- 1074 - e) in
  let q' := q / 2 ^ sh in
  let r := q mod 2 ^ sh in
  let half := 2 ^ (sh - 1) in
  let up := (half <? r) || ((r =? half) && (sticky || Z.odd q')) in
  let m := if up then q' + 1 else q' in
  if 2 ^ 1024 <=? m * 2 ^ (e + sh) then Infinity negative
  else mk_finite negative m (e + sh).

(** The Number for the decimal [mant * 10^exp10], [mant >= 0]. *)
Definition decimal_to_number (negative : bool) (mant exp10 : Z) : number :=
  if mant =? 0 then Finite 0 0
  else if 0 <=? exp10 then binary64_round negative (mant * 10 ^ exp10) 1
  else binary64_round negative mant (10 ^ (- exp10)).

(** ** Values *)

#[warnings="-register-all"]
Inductive JSValue : Type :=
| JUndefined
| JNull
| JBoolean (b : bool)
| JNumber (x : number)
| JString (s : jsstring)
| JArray (elements : list JSValue)
| JObject (properties : list (jsstring * JSValue)).

Definition properties_t := list (jsstring * JSValue).

(** Own data properties of an object, in creation order. *)
Fixpoint lookup_prop (key : jsstring) (props : properties_t)
  : option JSValue :=
  match props with
  | [] => None
  | (k, v) :: rest => if jsstring_eqb k key then Some v else lookup_prop key rest
  end.

(** [CreateDataProperty]: an existing key keeps its place and takes the new
    value. *)
Fixpoint set_prop (key : jsstring) (v : JSValue) (props : properties_t)
  : properties_t :=
  match props with
  | [] => [(key, v)]
  | (k, x) :: rest =>
      if jsstring_eqb k key then (k, v) :: rest
      else (k, x) :: set_prop key v rest
  end.

(** The [typeof] operator. *)
Definition typeof (v : JSValue) : string :=
  match v with
  | JUndefined => "undefined"
  | JNull => "object"
  | JBoolean _ => "boolean"
  | JNumber _ => "number"
  | JString _ => "string"
  | JArray _ => "object"
  | JObject _ => "object"
  end.

(** Strict equality with [null], as in [parsed !== null]. *)
Definition is_null (v : JSValue) : bool :=
  match v with
  | JNull => true
  | _ => false
  end.

(** The property names the page reads. *)
Inductive prop_name : Type := p_sender | p_received_at | p_trackers.

Definition prop_key (p : prop_name) : jsstring :=
  match p with
  | p_sender => js "sender"
  | p_received_at => js "received_at"
  | p_trackers => js "trackers"
  end.

(** Property access [v.p].  On [undefined] and [null] it throws a TypeError.
    On an object it yields the own property; when there is none the lookup
    goes to the prototype, and so do the lookups on arrays and primitives:
    no built-in prototype defines [sender], [received_at] or [trackers], so
    the answer there is [undefined]. *)
Definition Get (v : JSValue) (p : prop_name) : completion JSValue :=
  match v with
  | JUndefined | JNull => Throw TypeError
  | JObject props =>
      Normal match lookup_prop (prop_key p) props with
             | Some x => x
             | None => JUndefined
             end
  | _ => Normal JUndefined
  end.

(** [Number.isInteger]: a finite Number whose value is integral. *)
Definition Number_isInteger (v : JSValue) : bool :=
  match v with
  | JNumber (Finite m e) => (0 <=? e) || (m mod 2 ^ (- e) =? 0)
  | _ => false
  end.

(** [Array.isArray] *)
Definition Array_isArray (v : JSValue) : bool :=
  match v with
  | JArray _ => true
  | _ => false
  end.

(** The method call [v.every(callback)]: on an array, whether the callback
    holds of every element; [v.every] is not a function on the other values
    [Get] has answers for, and calling it throws a TypeError. *)
Definition every (v : JSValue) (callback : JSValue -> bool)
  : completion bool :=
  match v with
  | JArray elements => Normal (forallb callback elements)
  | _ => Throw TypeError
  end.

(** Short-circuit conjunction: the right operand is evaluated only when the
    left one is [true]. *)
Definition and_then (a b : completion bool) : completion bool :=
  match a with
  | Normal true => b
  | _ => a
  end.
Infix "&&&" := and_then (at level 40, left associativity).

(** ** [decodeURIComponent]

    ECMA-262, Decode with an empty reserved set: a code unit other than [%]
    stands for itself; [%XX] gives an octet, which is either an ASCII code
    unit or the first of the two to four octets, all escaped, of the UTF-8
    encoding of one code point; anything else throws a URIError. *)

Definition is_digit (c : Z) : bool := (48 <=? c) && (c <=? 57).

Definition hex_digit (c : Z) : option Z :=
  if is_digit c then Some (c - 48)
  else if (65 <=? c) && (c <=? 70) then Some (c - 55)
  else if (97 <=? c) && (c <=? 102) then Some (c - 87)
  else None.

Definition hex_pair (h l : Z) : option Z :=
  match hex_digit h, hex_digit l with
  | Some a, Some b => Some (16 * a + b)
  | _, _ => None
  end.

(** An escape [%XX] at the head of [s]: its octet and what follows it. *)
Definition percent_octet (s : jsstring) : option (Z * jsstring) :=
  match s with
  | p :: h :: l :: rest =>
      if p =? 37 then
        match hex_pair h l with
        | Some b => Some (b, rest)
        | None => None
        end
      else None
  | _ => None
  end.

Fixpoint continuation_octets (k : nat) (s : jsstring)
  : option (list Z * jsstring) :=
  match k with
  | O => Some ([], s)
  | S k' =>
      match percent_octet s with
      | Some (b, rest) =>
          match continuation_octets k' rest with
          | Some (bs, rest') => Some (b :: bs, rest')
          | None => None
          end
      | None => None
      end
  end.

(** The number of leading 1 bits of an octet (5 stands for five or more). *)
Definition leading_ones (b : Z) : Z :=
  if b <? 128 then 0
  else if b <? 192 then 1
  else if b <? 224 then 2
  else if b <? 240 then 3
  else if b <? 248 then 4
  else 5.

(** The code point encoded by the lead octet [b] and its continuation
    octets, when they are a valid UTF-8 encoding: continuation octets are
    [10xxxxxx], the encoding is the shortest one, and the code point is
    neither a surrogate nor beyond U+10FFFF. *)
Definition utf8_code_point (b : Z) (conts : list Z) : option Z :=
  let n := leading_ones b in
  let v := fold_left (fun acc c => Z.lor (Z.shiftl acc 6) (Z.land c 63))
             conts (Z.land b (Z.shiftr 255 (n + 1))) in
  let least := if n =? 2 then 128 else if n =? 3 then 2048 else 65536 in
  if forallb (fun c => Z.land c 192 =? 128) conts
     && (least <=? v) && (v <=? 1114111)
     && negb ((55296 <=? v) && (v <=? 57343))
  then Some v
  else None.

Definition UTF16EncodeCodePoint (v : Z) : jsstring :=
  if v <=? 65535 then [v]
  else [(v - 65536) / 1024 + 55296; (v - 65536) mod 1024 + 56320].

(** The loop of Decode.  Every round consumes at least one code unit, so
    [fuel] as large as the length of [s] is never used up
    (see [Decode_fuel]). *)
Fixpoint Decode (fuel : nat) (s : jsstring) : completion jsstring :=
  match s with
  | [] => Normal []
  | c :: rest =>
      match fuel with
      | O => Throw URIError
      | S fuel' =>
          if negb (c =? 37) then
            R <- Decode fuel' rest ;; Normal (c :: R)
          else
            match percent_octet s with
            | None => Throw URIError
            | Some (b, rest1) =>
                let n := leading_ones b in
                if n =? 0 then
                  R <- Decode fuel' rest1 ;; Normal (b :: R)
                else if (n =? 1) || (4 <? n) then Throw URIError
                else
                  match continuation_octets (Z.to_nat (n - 1)) rest1 with
                  | None => Throw URIError
                  | Some (conts, rest2) =>
                      match utf8_code_point b conts with
                      | None => Throw URIError
                      | Some v =>
                          R <- Decode fuel' rest2 ;;
                          Normal (UTF16EncodeCodePoint v ++ R)
                      end
                  end
            end
      end
  end.

Definition decodeURIComponent (s : jsstring) : completion jsstring :=
  Decode (List.length s) s.

(** ** [JSON.parse]

    ECMA-262 defines [JSON.parse] by the JSON grammar; this is a
    recursive-descent parser for that grammar.  A text that is not JSON
    throws a SyntaxError. *)

Definition is_ws (c : Z) : bool :=
  (c =? 9) || (c =? 10) || (c =? 13) || (c =? 32).

Fixpoint skip_ws (s : jsstring) : jsstring :=
  match s with
  | c :: rest => if is_ws c then skip_ws rest else s
  | [] => []
  end.

(** The character an escape [\c] stands for, [\u] apart. *)
Definition single_escape (c : Z) : option Z :=
  if c =? 34 then Some 34            (* quotation mark *)
  else if c =? 92 then Some 92       (* reverse solidus *)
  else if c =? 47 then Some 47       (* solidus *)
  else if c =? 98 then Some 8        (* b: backspace *)
  else if c =? 102 then Some 12      (* f: form feed *)
  else if c =? 110 then Some 10      (* n: line feed *)
  else if c =? 114 then Some 13      (* r: carriage return *)
  else if c =? 116 then Some 9       (* t: tab *)
  else None.

Definition hex4 (a b c d : Z) : option Z :=
  match hex_digit a, hex_digit b, hex_digit c, hex_digit d with
  | Some x, Some y, Some z, Some w => Some (4096 * x + 256 * y + 16 * z + w)
  | _, _, _, _ => None
  end.

(** A string literal, from just after its opening quotation mark: the string
    and the text after the closing quotation mark. *)
Fixpoint parse_string (s : jsstring) : completion (jsstring * jsstring) :=
  match s with
  | [] => Throw SyntaxError
  | c :: rest =>
      if c =? 34 then Normal ([], rest)
      else if c =? 92 then
        match rest with
        | [] => Throw SyntaxError
        | e :: rest1 =>
            if e =? 117 then
              match rest1 with
              | h1 :: h2 :: h3 :: h4 :: rest2 =>
                  match hex4 h1 h2 h3 h4 with
                  | Some u =>
                      '(str, r) <- parse_string rest2 ;; Normal (u :: str, r)
                  | None => Throw SyntaxError
                  end
              | _ => Throw SyntaxError
              end
            else
              match single_escape e with
              | Some u =>
                  '(str, r) <- parse_string rest1 ;; Normal (u :: str, r)
              | None => Throw SyntaxError
              end
        end
      else if c <? 32 then Throw SyntaxError
      else '(str, r) <- parse_string rest ;; Normal (c :: str, r)
  end.

(** The longest prefix of decimal digits, as digit values. *)
Fixpoint span_digits (s : jsstring) : list Z * jsstring :=
  match s with
  | c :: rest =>
      if is_digit c then
        let (ds, r) := span_digits rest in (c - 48 :: ds, r)
      else ([], s)
  | [] => ([], [])
  end.

Definition digits_value (ds : list Z) : Z :=
  fold_left (fun acc d => 10 * acc + d) ds 0.

(** The integer part of a number: [0], or digits that do not start with
    [0]. *)
Definition parse_int (s : jsstring) : completion (list Z * jsstring) :=
  match s with
  | c :: rest =>
      if c =? 48 then Normal ([0], rest)
      else if is_digit c then Normal (span_digits s)
      else Throw SyntaxError
  | [] => Throw SyntaxError
  end.

(** One or more digits. *)
Definition digits1 (s : jsstring) : completion (list Z * jsstring) :=
  match span_digits s with
  | ([], _) => Throw SyntaxError
  | (ds, r) => Normal (ds, r)
  end.

Definition parse_frac (s : jsstring) : completion (list Z * jsstring) :=
  match s with
  | c :: rest => if c =? 46 then digits1 rest else Normal ([], s)
  | [] => Normal ([], s)
  end.

Definition exp_sign (s : jsstring) : Z * jsstring :=
  match s with
  | g :: rest =>
      if g =? 45 then (-1, rest)
      else if g =? 43 then (1, rest)
      else (1, s)
  | [] => (1, s)
  end.

Definition parse_exp (s : jsstring) : completion (Z * jsstring) :=
  match s with
  | c :: rest =>
      if (c =? 101) || (c =? 69) then
        let (sign, rest1) := exp_sign rest in
        '(ds, r) <- digits1 rest1 ;; Normal (sign * digits_value ds, r)
      else Normal (0, s)
  | [] => Normal (0, s)
  end.

(** A number literal, and the Number it denotes. *)
Definition parse_number (s : jsstring) : completion (number * jsstring) :=
  let (negative, s1) :=
    match s with
    | c :: rest => if c =? 45 then (true, rest) else (false, s)
    | [] => (false, s)
    end in
  '(int, s2) <- parse_int s1 ;;
  '(frac, s3) <- parse_frac s2 ;;
  '(exp, s4) <- parse_exp s3 ;;
  Normal (decimal_to_number negative (digits_value (int ++ frac))
            (exp - Z.of_nat (List.length frac)),
          s4).

(** [s] without its prefix [word], when it starts with it. *)
Fixpoint strip_prefix (word s : jsstring) : option jsstring :=
  match word, s with
  | [], _ => Some s
  | w :: word', c :: rest => if w =? c then strip_prefix word' rest else None
  | _ :: _, [] => None
  end.

Definition parse_keyword (s : jsstring) : completion (JSValue * jsstring) :=
  match strip_prefix (js "null") s with
  | Some r => Normal (JNull, r)
  | None =>
      match strip_prefix (js "true") s with
      | Some r => Normal (JBoolean true, r)
      | None =>
          match strip_prefix (js "false") s with
          | Some r => Normal (JBoolean false, r)
          | None => Throw SyntaxError
          end
      end
  end.

(** A value; the elements of an array after [[] or [,]; the members of an
    object after [{] or [,].  Each gives its result and the rest of the
    text.  [fuel] bounds the depth of the calls; twice the length of the
    text, plus one, is enough for every text. *)
Fixpoint parse_value (fuel : nat) (s : jsstring)
  : completion (JSValue * jsstring) :=
  match fuel with
  | O => Throw SyntaxError
  | S fuel' =>
      match skip_ws s with
      | [] => Throw SyntaxError
      | c :: rest =>
          if c =? 123 then
            match skip_ws rest with
            | c' :: rest' =>
                if c' =? 125 then Normal (JObject [], rest')
                else parse_members fuel' rest []
            | [] => Throw SyntaxError
            end
          else if c =? 91 then
            match skip_ws rest with
            | c' :: rest' =>
                if c' =? 93 then Normal (JArray [], rest')
                else parse_elements fuel' rest []
            | [] => Throw SyntaxError
            end
          else if c =? 34 then
            '(str, r) <- parse_string rest ;; Normal (JString str, r)
          else if (c =? 45) || is_digit c then
            '(x, r) <- parse_number (c :: rest) ;; Normal (JNumber x, r)
          else parse_keyword (c :: rest)
      end
  end

with parse_elements (fuel : nat) (s : jsstring) (acc : list JSValue)
  : completion (JSValue * jsstring) :=
  match fuel with
  | O => Throw SyntaxError
  | S fuel' =>
      '(v, r) <- parse_value fuel' s ;;
      match skip_ws r with
      | c :: rest =>
          if c =? 44 then parse_elements fuel' rest (acc ++ [v])
          else if c =? 93 then Normal (JArray (acc ++ [v]), rest)
          else Throw SyntaxError
      | [] => Throw SyntaxError
      end
  end

with parse_members (fuel : nat) (s : jsstring) (acc : properties_t)
  : completion (JSValue * jsstring) :=
  match fuel with
  | O => Throw SyntaxError
  | S fuel' =>
      match skip_ws s with
      | c :: rest =>
          if c =? 34 then
            '(key, r) <- parse_string rest ;;
            match skip_ws r with
            | c2 :: rest2 =>
                if c2 =? 58 then
                  '(v, r3) <- parse_value fuel' rest2 ;;
                  match skip_ws r3 with
                  | c3 :: rest3 =>
                      if c3 =? 44 then
                        parse_members fuel' rest3 (set_prop key v acc)
                      else if c3 =? 125 then
                        Normal (JObject (set_prop key v acc), rest3)
                      else Throw SyntaxError
                  | [] => Throw SyntaxError
                  end
                else Throw SyntaxError
            | [] => Throw SyntaxError
            end
          else Throw SyntaxError
      | [] => Throw SyntaxError
      end
  end.

(** [JSON.parse(text)]: one value, with nothing but white space after it. *)
Definition JSON_parse (text : jsstring) : completion JSValue :=
  '(v, rest) <- parse_value (2 * List.length text + 1) text ;;
  match skip_ws rest with
  | [] => Normal v
  | _ :: _ => Throw SyntaxError
  end.

(** ** The page's functions *)

(** [containsReportData], lines 209-218: the run-time check of the shape of
    the parsed value. *)
Definition containsReportData (parsed : JSValue) : completion bool :=
  Normal (String.eqb (typeof parsed) "object")
  &&& Normal (negb (is_null parsed))
  &&& (sender <- Get parsed p_sender ;;
       Normal (String.eqb (typeof sender) "string"))
  &&& (received_at <- Get parsed p_received_at ;;
       Normal (Number_isInteger received_at))
  &&& (trackers <- Get parsed p_trackers ;;
       Normal (Array_isArray trackers))
  &&& (trackers <- Get parsed p_trackers ;;
       every trackers (fun tracker => String.eqb (typeof tracker) "string")).

(** [parseHash], lines 190-204.  The result is the object literal of lines
    196-200, or [null]. *)
Definition parseHash (hash : jsstring) : completion JSValue :=
  try_catch
    (decoded <- decodeURIComponent (substring hash 1) ;;
     data <- JSON_parse decoded ;;
     ok <- containsReportData data ;;
     if negb ok then Normal JNull
     else
       sender <- Get data p_sender ;;
       received_at <- Get data p_received_at ;;
       trackers <- Get data p_trackers ;;
       Normal (JObject [ (js "sender", sender);
                         (js "received_at", received_at);
                         (js "trackers", trackers) ]))
    (fun e => Normal JNull).

(** The object literal of lines 196-200 for a value of the type
    [ReportData] of lines 21-25: its three fields, under their names. *)
Definition ReportData (sender : jsstring) (received_at : number)
  (trackers : list jsstring) : JSValue :=
  JObject [ (js "sender", JString sender);
            (js "received_at", JNumber received_at);
            (js "trackers", JArray (map JString trackers)) ].

(** The decoded body of a fragment: what line 192 binds to [data]. *)
Definition decoded_body (hash : jsstring) : completion JSValue :=
  decoded <- decodeURIComponent (substring hash 1) ;; JSON_parse decoded.


(** A Number is integral when its value [m * 2^e] is an integer [z]; the
    equation is written without negative exponents. *)
Definition integral (x : number) : Prop :=
  match x with
  | Finite m e => exists z : Z, m * 2 ^ Z.max 0 e = z * 2 ^ Z.max 0 (- e)
  | _ => False
  end.

(** The values of the type that are Numbers: the infinities, NaN, zero, and
    the [m * 2^e] with [m] odd, of at most 53 bits, [e] not below [-1074]
    and a magnitude below [2^1024]. *)
Definition is_binary64 (x : number) : bool :=
  match x with
  | Finite m e =>
      ((m =? 0) && (e =? 0))
      || (Z.odd m && (Z.abs m <? 2 ^ 53) && (- 1074 <=? e)
          && (Z.abs m * 2 ^ e <? 2 ^ 1024))
  | _ => true
  end.

(** The value of an integral Number. *)
Definition integer_value (x : number) : Z :=
  match x with
  | Finite m e => if 0 <=? e then m * 2 ^ e else m / 2 ^ (- e)
  | _ => 0
  end.

(** The shape invariant in the words of the specification: a record whose
    [sender] is a string, whose [received_at] is an integer and whose
    [trackers] is a sequence of strings. *)
Definition valid_ReportData (v : JSValue) : Prop :=
  exists props S T ts,
    v = JObject props /\
    lookup_prop (js "sender") props = Some (JString S) /\
    lookup_prop (js "received_at") props = Some (JNumber T) /\
    integral T /\
    lookup_prop (js "trackers") props = Some (JArray (map JString ts)).

(** The callback of line 216. *)
Definition is_string (v : JSValue) : bool := String.eqb (typeof v) "string".

(** What the check of lines 209-218 comes to on an object: three tests on
    its own properties. *)
Definition shape_of_properties (props : properties_t) : bool :=
  match lookup_prop (js "sender") props with
  | Some (JString _) => true
  | _ => false
  end
  && match lookup_prop (js "received_at") props with
     | Some x => Number_isInteger x
     | None => false
     end
  && match lookup_prop (js "trackers") props with
     | Some (JArray l) => forallb is_string l
     | _ => false
     end.

(** ** The wire format

    The page does not contain the encoder of the fragments it reads; the
    definitions of this section follow section 6 of the specification: the
    fragment delimiter [#], then the JSON object with the three fields
    [sender] (a string), [received_at] (integer milliseconds) and
    [trackers] (a sequence of strings). *)

(** The decimal digits of [n >= 0], most significant first, before [acc];
    [fuel] above the binary logarithm of [n] is enough. *)
Fixpoint to_digits (fuel : nat) (n : Z) (acc : list Z) : list Z :=
  match fuel with
  | O => acc
  | S fuel' =>
      if n <? 10 then n :: acc
      else to_digits fuel' (n / 10) (n mod 10 :: acc)
  end.

Definition decimal (n : Z) : jsstring :=
  map (fun d => 48 + d) (to_digits (S (Z.to_nat (Z.log2 n))) n []).

Definition sign_text (negative : bool) : jsstring :=
  if negative then [45] else [].

(** Modelled from the spec: the timestamp, an integer, in decimal. *)
Definition integer_text (z : Z) : jsstring :=
  sign_text (z <? 0) ++ decimal (Z.abs z).

Definition hex_char (d : Z) : Z := if d <? 10 then 48 + d else 87 + d.

(** Modelled from the spec: a code unit inside a JSON string; the quotation
    mark, the reverse solidus and the control characters are escaped. *)
Definition quote_char (c : Z) : jsstring :=
  if c =? 34 then [92; 34]
  else if c =? 92 then [92; 92]
  else if c =? 8 then [92; 98]
  else if c =? 9 then [92; 116]
  else if c =? 10 then [92; 110]
  else if c =? 12 then [92; 102]
  else if c =? 13 then [92; 114]
  else if c <? 32 then [92; 117; 48; 48; hex_char (c / 16); hex_char (c mod 16)]
  else [c].

(** Modelled from the spec: a string as a JSON string. *)
Definition quote (s : jsstring) : jsstring :=
  34 :: flat_map quote_char s ++ [34].

Fixpoint join_comma (items : list jsstring) : jsstring :=
  match items with
  | [] => []
  | [x] => x
  | x :: rest => x ++ 44 :: join_comma rest
  end.

(** Modelled from the spec: the JSON text of a report, the object of
    section 6 with its three fields. *)
Definition wire_json (sender : jsstring) (received_at : number)
  (trackers : list jsstring) : jsstring :=
  123 :: quote (js "sender") ++ 58 :: quote sender
  ++ 44 :: quote (js "received_at")
  ++ 58 :: integer_text (integer_value received_at)
  ++ 44 :: quote (js "trackers")
  ++ 58 :: 91 :: join_comma (map quote trackers) ++ [93; 125].

(** Modelled from the spec: the fragment as the examples of sections 6 and
    8 write it, the JSON text after [#] as it is. *)
Definition raw_fragment (sender : jsstring) (received_at : number)
  (trackers : list jsstring) : jsstring :=
  35 :: wire_json sender received_at trackers.

(** Percent-encoding of the percent sign itself: [%] becomes [%25]. *)
Definition escape_percent (s : jsstring) : jsstring :=
  flat_map (fun c => if c =? 37 then [37; 50; 53] else [c]) s.

(** Modelled from the spec: a fragment whose decoded body is the JSON text
    (section 6), the text after [#] with its percent signs encoded. *)
Definition wire_fragment (sender : jsstring) (received_at : number)
  (trackers : list jsstring) : jsstring :=
  35 :: escape_percent (wire_json sender received_at trackers).

Definition percent_free (s : jsstring) : bool :=
  forallb (fun c => negb (c =? 37)) s.

Definition is_decimal_digit (d : Z) : Prop := 0 <= d <= 9.

(** The characters that may follow a number in the wire text: anything but
    a digit, a decimal point and an exponent mark. *)
Definition ends_number (c : Z) : bool :=
  negb (is_digit c || (c =? 46) || (c =? 101) || (c =? 69)).

(** ** Sample fragments *)

Definition example_hash : jsstring :=
  jsq "#{'sender':'email@example.com','received_at':1654866361357,'trackers':['ads.facebook.com','hi.com']}".

Definition example_properties : properties_t :=
  [ (js "sender", JString (js "email@example.com"));
    (js "received_at", JNumber (Finite 1654866361357 0));
    (js "trackers",
     JArray [JString (js "ads.facebook.com"); JString (js "hi.com")]) ].

Definition extra_hash : jsstring :=
  jsq "#{'id':7,'sender':'a@b.com','received_at':1,'trackers':[],'receivedAt':2}".

Definition array_hash : jsstring := js "#[1,2,3]".

Definition array_value : JSValue :=
  JArray [JNumber (Finite 1 0); JNumber (Finite 1 1); JNumber (Finite 3 0)].

Definition no_trackers_hash : jsstring :=
  jsq "#{'sender':'a@b.com','received_at':1,'trackers':[]}".

Definition percent_sender : jsstring := js "50%off@example.com".

Definition escaped_sender : jsstring := js "a%40b.com".


(** ** The page component

    [TrackerReport], lines 27-188.  Its state is the variable [reportData]
    of line 29, [undefined] at first; the effect of lines 31-40 sets it from
    the fragment and listens to [hashchange]; lines 42-187 choose what to
    show. *)

(** The Number of a count. *)
Definition number_of_nat (n : nat) : number := mk_finite false (Z.of_nat n) 0.

(** [v.length], as read at line 93: the length of an array or of a string,
    the own property of an object (no built-in prototype of the other
    values defines [length]), a TypeError on [undefined] and [null]. *)
Definition Get_length (v : JSValue) : completion JSValue :=
  match v with
  | JUndefined | JNull => Throw TypeError
  | JArray elements => Normal (JNumber (number_of_nat (List.length elements)))
  | JString s => Normal (JNumber (number_of_nat (List.length s)))
  | JObject props =>
      Normal match lookup_prop (js "length") props with
             | Some x => x
             | None => JUndefined
             end
  | _ => Normal JUndefined
  end.

(** The method call [v.map(callback)] of line 101: on an array, the results
    of the callback in order; on any other value there is no such method
    to call, a TypeError. *)
Definition Array_map {A : Type} (v : JSValue) (callback : JSValue -> A)
  : completion (list A) :=
  match v with
  | JArray elements => Normal (map callback elements)
  | _ => Throw TypeError
  end.

(** What the component returns: the loading message of lines 43-47, the
    error message of lines 50-54, or the report of lines 57-187 with the
    values it reads from [reportData]: the sender of line 81, the argument
    of [new Date] of line 87, the count of line 93 and, for each list item
    of lines 101-106, its key and its text. *)
Inductive view : Type :=
| view_loading
| view_load_error
| view_report (sender : JSValue) (received_at : JSValue) (count : JSValue)
    (items : list (JSValue * JSValue)).

(** Lines 42-187, for the value of [reportData]. *)
Definition render (reportData : JSValue) : completion view :=
  if String.eqb (typeof reportData) "undefined" then Normal view_loading
  else if is_null reportData then Normal view_load_error
  else
    sender <- Get reportData p_sender ;;
    received_at <- Get reportData p_received_at ;;
    trackers <- Get reportData p_trackers ;;
    count <- Get_length trackers ;;
    items <- Array_map trackers (fun tracker => (tracker, tracker)) ;;
    Normal (view_report sender received_at count items).

(** The state of the component: [reportData] (line 29) and the number of
    [hashchange] listeners it has on the window (lines 36 and 38). *)
Record component : Type := {
  reportData : JSValue;
  listeners : nat
}.

Definition initial_component : component :=
  {| reportData := JUndefined; listeners := 0 |}.

(** What happens to the component.  [Effect] is a run of the effect of
    lines 31-40 and [Cleanup] a run of the function it returns (lines
    37-39); [HashChange] is a [hashchange] event on the window.  [hash] is
    what [window.location.hash] gives when line 33 reads it. *)
Inductive event : Type :=
| Effect (hash : jsstring)
| HashChange (hash : jsstring)
| Cleanup.

(** [updateReportData], lines 32-34. *)
Definition updateReportData (hash : jsstring) (c : component)
  : completion component :=
  r <- parseHash hash ;;
  Normal {| reportData := r; listeners := listeners c |}.

(** One event.  The listeners of the component are all [updateReportData],
    so an event that reaches several has the effect of reaching one. *)
Definition step (c : component) (ev : event) : completion component :=
  match ev with
  | Effect hash =>
      c' <- updateReportData hash c ;;
      Normal {| reportData := reportData c'; listeners := S (listeners c') |}
  | HashChange hash =>
      match listeners c with
      | O => Normal c
      | S _ => updateReportData hash c
      end
  | Cleanup =>
      Normal {| reportData := reportData c;
                listeners := Nat.pred (listeners c) |}
  end.

Fixpoint run (c : component) (evs : list event) : completion component :=
  match evs with
  | [] => Normal c
  | ev :: rest => c' <- step c ev ;; run c' rest
  end.

Definition is_effect (ev : event) : bool :=
  match ev with
  | Effect _ => true
  | _ => false
  end.

(** The values [reportData] is declared to hold (line 29): [undefined],
    [null] or a [ReportData]. *)
Definition typed_state (v : JSValue) : Prop :=
  v = JUndefined \/ v = JNull \/
  exists S T ts, integral T /\ v = ReportData S T ts.

(** ** More sample fragments *)

(** The record of [example_hash] with its fields in another order and two
    fields more. *)
Definition reordered_hash : jsstring :=
  jsq "#{'trackers':['ads.facebook.com','hi.com'],'id':7,'received_at':1654866361357,'sender':'email@example.com','note':null}".

Definition reordered_properties : properties_t :=
  [ (js "trackers",
     JArray [JString (js "ads.facebook.com"); JString (js "hi.com")]);
    (js "id", JNumber (Finite 7 0));
    (js "received_at", JNumber (Finite 1654866361357 0));
    (js "sender", JString (js "email@example.com"));
    (js "note", JNull) ].

(** ** Percent-encoding

    ECMA-262, Encode, the inverse of Decode: a code unit of the set
    [unescaped] (ASCII characters only) stands for itself; any other code
    point is written as the escapes [%XX], in upper-case hexadecimal, of the
    octets of its UTF-8 encoding; a surrogate that is not half of a pair
    throws a URIError. *)

Definition hex_upper (d : Z) : Z := if d <? 10 then 48 + d else 55 + d.

Definition percent_escape (b : Z) : jsstring :=
  [37; hex_upper (b / 16); hex_upper (b mod 16)].

(** The octets of the UTF-8 encoding of a code point. *)
Definition utf8_octets (v : Z) : list Z :=
  if v <? 128 then [v]
  else if v <? 2048 then [192 + v / 64; 128 + v mod 64]
  else if v <? 65536 then
    [224 + v / 4096; 128 + (v / 64) mod 64; 128 + v mod 64]
  else
    [240 + v / 262144; 128 + (v / 4096) mod 64; 128 + (v / 64) mod 64;
     128 + v mod 64].

Definition is_high_surrogate (c : Z) : bool := (55296 <=? c) && (c <=? 56319).
Definition is_low_surrogate (c : Z) : bool := (56320 <=? c) && (c <=? 57343).

(** The code point of a surrogate pair. *)
Definition pair_code_point (hi lo : Z) : Z :=
  (hi - 55296) * 1024 + (lo - 56320) + 65536.

Fixpoint Encode (unescaped : Z -> bool) (s : jsstring)
  : completion jsstring :=
  match s with
  | [] => Normal []
  | c :: rest =>
      if (c <? 128) && unescaped c then
        R <- Encode unescaped rest ;; Normal (c :: R)
      else if is_low_surrogate c then Throw URIError
      else if is_high_surrogate c then
        match rest with
        | d :: rest' =>
            if is_low_surrogate d then
              R <- Encode unescaped rest' ;;
              Normal (flat_map percent_escape
                        (utf8_octets (pair_code_point c d)) ++ R)
            else Throw URIError
        | [] => Throw URIError
        end
      else
        R <- Encode unescaped rest ;;
        Normal (flat_map percent_escape (utf8_octets c) ++ R)
  end.

(** The characters [encodeURIComponent] leaves as they are: letters,
    digits and [- _ . ! ~ * ' ( )]. *)
Definition uriUnreserved (c : Z) : bool :=
  ((65 <=? c) && (c <=? 90)) || ((97 <=? c) && (c <=? 122)) || is_digit c
  || (c =? 45) || (c =? 95) || (c =? 46) || (c =? 33) || (c =? 126)
  || (c =? 42) || (c =? 39) || (c =? 40) || (c =? 41).

Definition encodeURIComponent (s : jsstring) : completion jsstring :=
  Encode uriUnreserved s.

(** No percent sign of [s] is left unescaped. *)
Definition escapes_percent (unescaped : Z -> bool) (s : jsstring) : bool :=
  forallb (fun c => negb ((c =? 37) && unescaped c)) s.

Definition is_octet (b : Z) : Prop := 0 <= b < 256.

(** The code points that are not surrogates. *)
Definition scalar_value (v : Z) : Prop :=
  0 <= v < 1114112 /\ ~ (55296 <= v <= 57343).

(** Every surrogate of [s] is half of a pair. *)
Fixpoint paired_surrogates (s : jsstring) : bool :=
  match s with
  | [] => true
  | c :: rest =>
      if is_low_surrogate c then false
      else if is_high_surrogate c then
        match rest with
        | d :: rest' => is_low_surrogate d && paired_surrogates rest'
        | [] => false
        end
      else paired_surrogates rest
  end.

(** A sender that is not ASCII: [rené@example.com] followed by U+1F600 as a
    surrogate pair. *)
Definition unicode_sender : jsstring :=
  js "ren" ++ 233 :: js "@example.com" ++ [55357; 56832].

(** The JSON text of the report of [unicode_sender], and its encoding by
    [encodeURIComponent]. *)
Definition unicode_json : jsstring :=
  wire_json unicode_sender (Finite 1654866361357 0) [js "hi.com"].

Definition unicode_encoded : jsstring :=
  match encodeURIComponent unicode_json with
  | Normal t => t
  | Throw _ => []
  end.

(** The Number of an integer that is one (every integer up to [2^53] in
    magnitude is). *)
Definition number_of_Z (z : Z) : number := mk_finite (z <? 0) (Z.abs z) 0.

(** ** The state around the parser

    [parseHash] is called in a page that has state.  A [world] holds the
    state that the functions of the page can reach: [window.location.hash],
    which line 33 reads; the component, whose [reportData] line 33 sets;
    and what the values inherit from their prototypes, which every property
    read consults when the value has no own property of that name.
    [inherited w v p] is the data property [p] found on the prototype chain
    of [v]: [Object.prototype] for an object, [Array.prototype] and then
    [Object.prototype] for an array, the prototype of its wrapper and then
    [Object.prototype] for a primitive.  As built in, the prototypes hold
    none of the three names; a script can add one. *)
Record world : Type := {
  inherited : JSValue -> prop_name -> option JSValue;
  location_hash : jsstring;
  page : component
}.

(** The prototypes as built in. *)
Definition built_in (w : world) : Prop :=
  forall v p, inherited w v p = None.

(** Two worlds with the same prototypes. *)
Definition same_prototypes (w w' : world) : Prop :=
  forall v p, inherited w v p = inherited w' v p.

(** A computation in a world: it completes normally or throws, and leaves a
    world. *)
Definition action (A : Type) : Type := world -> completion A * world.

Definition ret {A : Type} (a : A) : action A := fun w => (Normal a, w).

(** A call that neither reads nor writes the world. *)
Definition lift {A : Type} (c : completion A) : action A := fun w => (c, w).

Definition bind_st {A B : Type} (m : action A) (k : A -> action B)
  : action B :=
  fun w =>
    match m w with
    | (Normal a, w') => k a w'
    | (Throw e, w') => (Throw e, w')
    end.

Notation "x <~ m ;; k" := (bind_st m (fun x => k))
  (at level 61, m at next level, right associativity).

Definition try_catch_st {A : Type} (body : action A)
  (handler : exn -> action A) : action A :=
  fun w =>
    match body w with
    | (Normal a, w') => (Normal a, w')
    | (Throw e, w') => handler e w'
    end.

Definition read_world : action world := fun w => (Normal w, w).

Definition write_world (w' : world) : action unit := fun _ => (Normal tt, w').

(** The own property [p] of a value: objects made by [JSON.parse] or by an
    object literal have the properties they were given; arrays and
    primitives have none of the three names. *)
Definition own_property (v : JSValue) (p : prop_name) : option JSValue :=
  match v with
  | JObject props => lookup_prop (prop_key p) props
  | _ => None
  end.

(** Property access [v.p] in a world: the own property, else the inherited
    one, else [undefined]; a TypeError on [undefined] and [null]. *)
Definition Get_st (v : JSValue) (p : prop_name) : action JSValue :=
  match v with
  | JUndefined | JNull => lift (Throw TypeError)
  | _ =>
      match own_property v p with
      | Some x => ret x
      | None =>
          w <~ read_world ;;
          ret match inherited w v p with
              | Some x => x
              | None => JUndefined
              end
      end
  end.

(** Short-circuit conjunction: the right operand runs only when the left
    one is [true]. *)
Definition and_then_st (a b : action bool) : action bool :=
  x <~ a ;; if x then b else ret false.
Infix "&&~" := and_then_st (at level 40, left associativity).

(** [containsReportData], lines 209-218, in a world. *)
Definition containsReportData_st (parsed : JSValue) : action bool :=
  ret (String.eqb (typeof parsed) "object")
  &&~ ret (negb (is_null parsed))
  &&~ (sender <~ Get_st parsed p_sender ;;
       ret (String.eqb (typeof sender) "string"))
  &&~ (received_at <~ Get_st parsed p_received_at ;;
       ret (Number_isInteger received_at))
  &&~ (trackers <~ Get_st parsed p_trackers ;;
       ret (Array_isArray trackers))
  &&~ (trackers <~ Get_st parsed p_trackers ;;
       lift (every trackers
               (fun tracker => String.eqb (typeof tracker) "string"))).

(** [parseHash], lines 190-204, in a world. *)
Definition parseHash_st (hash : jsstring) : action JSValue :=
  try_catch_st
    (decoded <~ lift (decodeURIComponent (substring hash 1)) ;;
     data <~ lift (JSON_parse decoded) ;;
     ok <~ containsReportData_st data ;;
     if negb ok then ret JNull
     else
       sender <~ Get_st data p_sender ;;
       received_at <~ Get_st data p_received_at ;;
       trackers <~ Get_st data p_trackers ;;
       ret (JObject [ (js "sender", sender);
                      (js "received_at", received_at);
                      (js "trackers", trackers) ]))
    (fun e => ret JNull).

(** [setReportData], the setter of line 29. *)
Definition setReportData (r : JSValue) : action unit :=
  w <~ read_world ;;
  write_world {| inherited := inherited w;
                 location_hash := location_hash w;
                 page := {| reportData := r;
                            listeners := listeners (page w) |} |}.

(** [updateReportData], lines 32-34, in a world: it reads
    [window.location.hash] and sets [reportData]. *)
Definition updateReportData_st : action unit :=
  w <~ read_world ;;
  r <~ parseHash_st (location_hash w) ;;
  setReportData r.

(** The world changed in its fragment and in its component only. *)
Definition with_page (w : world) (hash : jsstring) (c : component) : world :=
  {| inherited := inherited w; location_hash := hash; page := c |}.

(** An action that leaves the world as it is and whose result is the same
    in worlds with the same prototypes. *)
Definition page_blind {A : Type} (m : action A) : Prop :=
  forall w,
    snd (m w) = w /\
    forall w', same_prototypes w w' -> fst (m w') = fst (m w).

(** An action that, with the prototypes as built in, is the computation [c]
    and leaves the world as it is. *)
Definition runs_as {A : Type} (c : completion A) (m : action A) : Prop :=
  forall w, built_in w -> m w = (c, w).

(** A world with the prototypes as built in, the fragment of the example
    and the component as mounted. *)
Definition sample_world : world :=
  {| inherited := fun _ _ => None;
     location_hash := example_hash;
     page := initial_component |}.

(** A world in which a script has set [Object.prototype.sender]. *)
Definition polluted_world : world :=
  {| inherited := fun _ p =>
       match p with
       | p_sender => Some (JString (js "x"))
       | _ => None
       end;
     location_hash := array_hash;
     page := initial_component |}.

(** * Properties *)

(** ** The fuel of the two loops is never used up *)

Lemma percent_octet_length s b rest :
  percent_octet s = Some (b, rest) ->
  (List.length s = 3 + List.length rest)%nat.
Proof.
  unfold percent_octet.
  destruct s as [|p [|h [|l r]]]; try discriminate.
  destruct (p =? 37); try discriminate.
  destruct (hex_pair h l); try discriminate.
  intros H. injection H as _ <-. reflexivity.
Qed.

Lemma continuation_octets_length k s bs rest :
  continuation_octets k s = Some (bs, rest) ->
  (List.length rest <= List.length s)%nat.
Proof.
  revert s bs rest. induction k as [|k IH]; simpl; intros s bs rest H.
  - injection H as _ <-. lia.
  - destruct (percent_octet s) as [[b r]|] eqn:Hp; try discriminate.
    destruct (continuation_octets k r) as [[bs' r']|] eqn:Hc;
      try discriminate.
    injection H as _ <-.
    apply percent_octet_length in Hp. apply IH in Hc. lia.
Qed.

Lemma Decode_fuel_eq n :
  forall s f1 f2,
    (List.length s <= n)%nat ->
    (List.length s <= f1)%nat -> (List.length s <= f2)%nat ->
    Decode f1 s = Decode f2 s.
Proof.
  induction n as [|n IH]; intros s f1 f2 Hn H1 H2.
  - destruct s; [|simpl in Hn; lia]. destruct f1, f2; reflexivity.
  - destruct s as [|c rest]; [destruct f1, f2; reflexivity|].
    destruct f1 as [|f1]; [simpl in H1; lia|].
    destruct f2 as [|f2]; [simpl in H2; lia|].
    cbn [Decode]. cbn [List.length] in Hn, H1, H2.
    destruct (negb (c =? 37)).
    + rewrite (IH rest f1 f2) by lia. reflexivity.
    + destruct (percent_octet (c :: rest)) as [[b rest1]|] eqn:Hp;
        [|reflexivity].
      apply percent_octet_length in Hp. cbn [List.length] in Hp.
      destruct (leading_ones b =? 0).
      * rewrite (IH rest1 f1 f2) by lia. reflexivity.
      * destruct ((leading_ones b =? 1) || (4 <? leading_ones b));
          [reflexivity|].
        destruct (continuation_octets _ rest1) as [[conts rest2]|] eqn:Hc;
          [|reflexivity].
        apply continuation_octets_length in Hc.
        destruct (utf8_code_point b conts); [|reflexivity].
        rewrite (IH rest2 f1 f2) by lia. reflexivity.
Qed.

(** [decodeURIComponent] does not depend on the fuel it gives its loop. *)
Lemma Decode_fuel s fuel :
  (List.length s <= fuel)%nat -> Decode fuel s = decodeURIComponent s.
Proof.
  intros H. unfold decodeURIComponent.
  apply (Decode_fuel_eq (List.length s)); lia.
Qed.

(** The only exception of [decodeURIComponent] is the URIError. *)
Lemma Decode_throw fuel : forall s e, Decode fuel s = Throw e -> e = URIError.
Proof.
  induction fuel as [|fuel IH]; intros s e; destruct s as [|c rest];
    cbn [Decode]; try discriminate; try congruence.
  destruct (negb (c =? 37)).
  - destruct (Decode fuel rest) eqn:Hd; cbn [bind]; try discriminate.
    intros H. injection H as <-. eauto.
  - destruct (percent_octet (c :: rest)) as [[b rest1]|]; [|congruence].
    destruct (leading_ones b =? 0).
    + destruct (Decode fuel rest1) eqn:Hd; cbn [bind]; try discriminate.
      intros H. injection H as <-. eauto.
    + destruct ((leading_ones b =? 1) || (4 <? leading_ones b));
        [congruence|].
      destruct (continuation_octets _ rest1) as [[conts rest2]|];
        [|congruence].
      destruct (utf8_code_point b conts); [|congruence].
      destruct (Decode fuel rest2) eqn:Hd; cbn [bind]; try discriminate.
      intros H. injection H as <-. eauto.
Qed.

Lemma skip_ws_length s : (List.length (skip_ws s) <= List.length s)%nat.
Proof.
  induction s as [|c s IH]; simpl; [lia|].
  destruct (is_ws c); simpl; lia.
Qed.

Lemma skip_ws_cons s c rest :
  skip_ws s = c :: rest -> (List.length rest < List.length s)%nat.
Proof.
  intros H. pose proof (skip_ws_length s) as Hl. rewrite H in Hl.
  simpl in Hl. lia.
Qed.

Lemma parse_string_length n :
  forall s str r,
    (List.length s <= n)%nat ->
    parse_string s = Normal (str, r) ->
    (List.length r < List.length s)%nat.
Proof.
  induction n as [|n IH]; intros s str r Hn; destruct s as [|c rest];
    cbn [parse_string]; try discriminate; cbn [List.length] in *; try lia.
  destruct (c =? 34); [intros H; injection H as _ <-; lia|].
  destruct (c =? 92).
  - destruct rest as [|e rest1]; try discriminate.
    cbn [List.length] in *.
    destruct (e =? 117).
    + destruct rest1 as [|h1 [|h2 [|h3 [|h4 rest2]]]]; try discriminate.
      destruct (hex4 h1 h2 h3 h4); try discriminate.
      destruct (parse_string rest2) as [[str' r']|] eqn:Hp; try discriminate.
      cbn [bind]. intros H. injection H as _ <-.
      apply IH in Hp; cbn [List.length] in *; lia.
    + destruct (single_escape e); try discriminate.
      destruct (parse_string rest1) as [[str' r']|] eqn:Hp; try discriminate.
      cbn [bind]. intros H. injection H as _ <-.
      apply IH in Hp; lia.
  - destruct (c <? 32); try discriminate.
    destruct (parse_string rest) as [[str' r']|] eqn:Hp; try discriminate.
    cbn [bind]. intros H. injection H as _ <-.
    apply IH in Hp; lia.
Qed.

Lemma span_digits_length s :
  (List.length (snd (span_digits s)) <= List.length s)%nat.
Proof.
  induction s as [|c s IH]; simpl; [lia|].
  destruct (is_digit c); simpl; [|lia].
  destruct (span_digits s); simpl in *. lia.
Qed.

Lemma parse_int_length s ds r :
  parse_int s = Normal (ds, r) -> (List.length r < List.length s)%nat.
Proof.
  unfold parse_int. destruct s as [|c rest]; try discriminate.
  destruct (c =? 48); [intros H; injection H as _ <-; simpl; lia|].
  destruct (is_digit c) eqn:Hc; try discriminate.
  intros H. injection H as H.
  pose proof (span_digits_length rest) as Hl.
  cbn [span_digits] in H. rewrite Hc in H.
  destruct (span_digits rest). injection H as _ <-. simpl in *. lia.
Qed.

Lemma digits1_length s ds r :
  digits1 s = Normal (ds, r) -> (List.length r <= List.length s)%nat.
Proof.
  unfold digits1. pose proof (span_digits_length s) as Hl.
  destruct (span_digits s) as [[|d ds'] r']; try discriminate.
  intros H. injection H as _ <-. exact Hl.
Qed.

Lemma parse_frac_length s ds r :
  parse_frac s = Normal (ds, r) -> (List.length r <= List.length s)%nat.
Proof.
  unfold parse_frac. destruct s as [|c rest].
  - intros H. injection H as _ <-. lia.
  - destruct (c =? 46).
    + intros H. apply digits1_length in H. simpl. lia.
    + intros H. injection H as _ <-. lia.
Qed.

Lemma exp_sign_length s :
  (List.length (snd (exp_sign s)) <= List.length s)%nat.
Proof.
  unfold exp_sign. destruct s as [|g rest]; simpl; [lia|].
  destruct (g =? 45); simpl; [lia|]. destruct (g =? 43); simpl; lia.
Qed.

Lemma parse_exp_length s x r :
  parse_exp s = Normal (x, r) -> (List.length r <= List.length s)%nat.
Proof.
  unfold parse_exp. destruct s as [|c rest].
  - intros H. injection H as _ <-. lia.
  - destruct ((c =? 101) || (c =? 69)).
    + pose proof (exp_sign_length rest) as Hl.
      destruct (exp_sign rest) as [sign rest1].
      destruct (digits1 rest1) as [[ds r']|] eqn:Hd; try discriminate.
      cbn [bind]. intros H. injection H as _ <-.
      apply digits1_length in Hd. simpl in *. lia.
    + intros H. injection H as _ <-. lia.
Qed.

Lemma parse_number_length s x r :
  parse_number s = Normal (x, r) -> (List.length r < List.length s)%nat.
Proof.
  unfold parse_number.
  assert (Hs : forall negative s1,
             (List.length s1 <= List.length s)%nat ->
             ('(int, s2) <- parse_int s1 ;;
              '(frac, s3) <- parse_frac s2 ;;
              '(exp, s4) <- parse_exp s3 ;;
              Normal (decimal_to_number negative (digits_value (int ++ frac))
                        (exp - Z.of_nat (List.length frac)), s4))
             = Normal (x, r) ->
             (List.length r < List.length s)%nat).
  { intros negative s1 Hl.
    destruct (parse_int s1) as [[int s2]|] eqn:Hi; cbn [bind];
      try discriminate.
    destruct (parse_frac s2) as [[frac s3]|] eqn:Hf; cbn [bind];
      try discriminate.
    destruct (parse_exp s3) as [[exp s4]|] eqn:He; cbn [bind];
      try discriminate.
    intros H. injection H as _ <-.
    apply parse_int_length in Hi. apply parse_frac_length in Hf.
    apply parse_exp_length in He. lia. }
  destruct s as [|c rest]; [apply Hs; lia|].
  destruct (c =? 45); apply Hs; simpl; lia.
Qed.

Lemma strip_prefix_length word :
  forall s r, strip_prefix word s = Some r ->
              List.length s = (List.length word + List.length r)%nat.
Proof.
  induction word as [|w word IH]; intros s r; simpl.
  - intros H. injection H as <-. reflexivity.
  - destruct s as [|c rest]; try discriminate.
    destruct (w =? c); try discriminate.
    intros H. apply IH in H. simpl. lia.
Qed.

Lemma parse_keyword_length s v r :
  parse_keyword s = Normal (v, r) -> (List.length r < List.length s)%nat.
Proof.
  unfold parse_keyword.
  destruct (strip_prefix (js "null") s) eqn:H1.
  { intros H. injection H as _ <-. apply strip_prefix_length in H1.
    simpl in H1. lia. }
  destruct (strip_prefix (js "true") s) eqn:H2.
  { intros H. injection H as _ <-. apply strip_prefix_length in H2.
    simpl in H2. lia. }
  destruct (strip_prefix (js "false") s) eqn:H3; try discriminate.
  intros H. injection H as _ <-. apply strip_prefix_length in H3.
  simpl in H3. lia.
Qed.

(** The unfolding equations of the three mutually recursive parsers. *)
Lemma parse_value_S fuel s :
  parse_value (S fuel) s =
  match skip_ws s with
  | [] => Throw SyntaxError
  | c :: rest =>
      if c =? 123 then
        match skip_ws rest with
        | c' :: rest' =>
            if c' =? 125 then Normal (JObject [], rest')
            else parse_members fuel rest []
        | [] => Throw SyntaxError
        end
      else if c =? 91 then
        match skip_ws rest with
        | c' :: rest' =>
            if c' =? 93 then Normal (JArray [], rest')
            else parse_elements fuel rest []
        | [] => Throw SyntaxError
        end
      else if c =? 34 then
        '(str, r) <- parse_string rest ;; Normal (JString str, r)
      else if (c =? 45) || is_digit c then
        '(x, r) <- parse_number (c :: rest) ;; Normal (JNumber x, r)
      else parse_keyword (c :: rest)
  end.
Proof. reflexivity. Qed.

Lemma parse_elements_S fuel s acc :
  parse_elements (S fuel) s acc =
  '(v, r) <- parse_value fuel s ;;
  match skip_ws r with
  | c :: rest =>
      if c =? 44 then parse_elements fuel rest (acc ++ [v])
      else if c =? 93 then Normal (JArray (acc ++ [v]), rest)
      else Throw SyntaxError
  | [] => Throw SyntaxError
  end.
Proof. reflexivity. Qed.

Lemma parse_members_S fuel s acc :
  parse_members (S fuel) s acc =
  match skip_ws s with
  | c :: rest =>
      if c =? 34 then
        '(key, r) <- parse_string rest ;;
        match skip_ws r with
        | c2 :: rest2 =>
            if c2 =? 58 then
              '(v, r3) <- parse_value fuel rest2 ;;
              match skip_ws r3 with
              | c3 :: rest3 =>
                  if c3 =? 44 then
                    parse_members fuel rest3 (set_prop key v acc)
                  else if c3 =? 125 then
                    Normal (JObject (set_prop key v acc), rest3)
                  else Throw SyntaxError
              | [] => Throw SyntaxError
              end
            else Throw SyntaxError
        | [] => Throw SyntaxError
        end
      else Throw SyntaxError
  | [] => Throw SyntaxError
  end.
Proof. reflexivity. Qed.

(** Every successful parse consumes at least one code unit. *)
Lemma parse_consumes fuel :
  (forall s v r, parse_value fuel s = Normal (v, r) ->
                 (List.length r < List.length s)%nat) /\
  (forall s acc v r, parse_elements fuel s acc = Normal (v, r) ->
                     (List.length r < List.length s)%nat) /\
  (forall s acc v r, parse_members fuel s acc = Normal (v, r) ->
                     (List.length r < List.length s)%nat).
Proof.
  induction fuel as [|fuel (IHv & IHe & IHm)];
    [repeat split; intros; discriminate|].
  split; [|split].
  - intros s v r. rewrite parse_value_S.
    destruct (skip_ws s) as [|c rest] eqn:Hs; try discriminate.
    apply skip_ws_cons in Hs.
    destruct (c =? 123).
    { destruct (skip_ws rest) as [|c' rest'] eqn:Hr; try discriminate.
      apply skip_ws_cons in Hr.
      destruct (c' =? 125).
      - intros H. injection H as _ <-. lia.
      - intros H. apply IHm in H. lia. }
    destruct (c =? 91).
    { destruct (skip_ws rest) as [|c' rest'] eqn:Hr; try discriminate.
      apply skip_ws_cons in Hr.
      destruct (c' =? 93).
      - intros H. injection H as _ <-. lia.
      - intros H. apply IHe in H. lia. }
    destruct (c =? 34).
    { destruct (parse_string rest) as [[str r']|] eqn:Hp; cbn [bind];
        try discriminate.
      intros H. injection H as _ <-.
      apply (parse_string_length (List.length rest)) in Hp; lia. }
    destruct ((c =? 45) || is_digit c).
    { destruct (parse_number (c :: rest)) as [[x r']|] eqn:Hp; cbn [bind];
        try discriminate.
      intros H. injection H as _ <-.
      apply parse_number_length in Hp. simpl in Hp. lia. }
    intros H. apply parse_keyword_length in H. simpl in H. lia.
  - intros s acc v r. rewrite parse_elements_S.
    destruct (parse_value fuel s) as [[v0 r0]|] eqn:Hv; cbn [bind];
      try discriminate.
    apply IHv in Hv.
    destruct (skip_ws r0) as [|c rest] eqn:Hr; try discriminate.
    apply skip_ws_cons in Hr.
    destruct (c =? 44); [intros H; apply IHe in H; lia|].
    destruct (c =? 93); try discriminate.
    intros H. injection H as _ <-. lia.
  - intros s acc v r. rewrite parse_members_S.
    destruct (skip_ws s) as [|c rest] eqn:Hs; try discriminate.
    apply skip_ws_cons in Hs.
    destruct (c =? 34); try discriminate.
    destruct (parse_string rest) as [[key r1]|] eqn:Hp; cbn [bind];
      try discriminate.
    apply (parse_string_length (List.length rest)) in Hp; [|lia].
    destruct (skip_ws r1) as [|c2 rest2] eqn:Hr1; try discriminate.
    apply skip_ws_cons in Hr1.
    destruct (c2 =? 58); try discriminate.
    destruct (parse_value fuel rest2) as [[v0 r3]|] eqn:Hv; cbn [bind];
      try discriminate.
    apply IHv in Hv.
    destruct (skip_ws r3) as [|c3 rest3] eqn:Hr3; try discriminate.
    apply skip_ws_cons in Hr3.
    destruct (c3 =? 44); [intros H; apply IHm in H; lia|].
    destruct (c3 =? 125); try discriminate.
    intros H. injection H as _ <-. lia.
Qed.

Lemma parse_fuel_eq n :
  forall s, (List.length s < n)%nat ->
    (forall f1 f2,
        (2 * List.length s + 1 <= f1)%nat ->
        (2 * List.length s + 1 <= f2)%nat ->
        parse_value f1 s = parse_value f2 s) /\
    (forall f1 f2 acc,
        (2 * List.length s + 2 <= f1)%nat ->
        (2 * List.length s + 2 <= f2)%nat ->
        parse_elements f1 s acc = parse_elements f2 s acc) /\
    (forall f1 f2 acc,
        (2 * List.length s + 2 <= f1)%nat ->
        (2 * List.length s + 2 <= f2)%nat ->
        parse_members f1 s acc = parse_members f2 s acc).
Proof.
  induction n as [|n IH]; intros s Hn; [lia|].
  assert (Hvalue : forall f1 f2,
             (2 * List.length s + 1 <= f1)%nat ->
             (2 * List.length s + 1 <= f2)%nat ->
             parse_value f1 s = parse_value f2 s).
  { intros [|f1] [|f2] H1 H2; try lia.
    rewrite !parse_value_S.
    destruct (skip_ws s) as [|c rest] eqn:Hs; [reflexivity|].
    apply skip_ws_cons in Hs.
    destruct (IH rest ltac:(lia)) as (_ & IHe & IHm).
    destruct (c =? 123).
    { destruct (skip_ws rest) as [|c' rest']; [reflexivity|].
      destruct (c' =? 125); [reflexivity|]. apply IHm; lia. }
    destruct (c =? 91); [|reflexivity].
    destruct (skip_ws rest) as [|c' rest']; [reflexivity|].
    destruct (c' =? 93); [reflexivity|]. apply IHe; lia. }
  split; [exact Hvalue|split].
  - intros [|f1] [|f2] acc H1 H2; try lia.
    rewrite !parse_elements_S.
    rewrite (Hvalue f1 f2) by lia.
    destruct (parse_value f2 s) as [[v r]|] eqn:Hv; cbn [bind];
      [|reflexivity].
    apply (proj1 (parse_consumes f2)) in Hv.
    destruct (skip_ws r) as [|c rest] eqn:Hr; [reflexivity|].
    apply skip_ws_cons in Hr.
    destruct (IH rest ltac:(lia)) as (_ & IHe & _).
    destruct (c =? 44); [|reflexivity]. apply IHe; lia.
  - intros [|f1] [|f2] acc H1 H2; try lia.
    rewrite !parse_members_S.
    destruct (skip_ws s) as [|c rest] eqn:Hs; [reflexivity|].
    apply skip_ws_cons in Hs.
    destruct (c =? 34); [|reflexivity].
    destruct (parse_string rest) as [[key r1]|] eqn:Hp; cbn [bind];
      [|reflexivity].
    apply (parse_string_length (List.length rest)) in Hp; [|lia].
    destruct (skip_ws r1) as [|c2 rest2] eqn:Hr1; [reflexivity|].
    apply skip_ws_cons in Hr1.
    destruct (c2 =? 58); [|reflexivity].
    destruct (IH rest2 ltac:(lia)) as (IHv & _ & _).
    rewrite (IHv f1 f2) by lia.
    destruct (parse_value f2 rest2) as [[v r3]|] eqn:Hv; cbn [bind];
      [|reflexivity].
    apply (proj1 (parse_consumes f2)) in Hv.
    destruct (skip_ws r3) as [|c3 rest3] eqn:Hr3; [reflexivity|].
    apply skip_ws_cons in Hr3.
    destruct (IH rest3 ltac:(lia)) as (_ & _ & IHm).
    destruct (c3 =? 44); [|reflexivity]. apply IHm; lia.
Qed.

(** More fuel than [JSON_parse] gives its parser changes no result: the
    SyntaxError of a parser out of fuel is never the answer of
    [JSON_parse]. *)
Lemma parse_value_fuel text fuel :
  (2 * List.length text + 1 <= fuel)%nat ->
  parse_value fuel text = parse_value (2 * List.length text + 1) text.
Proof.
  intros H.
  apply (proj1 (parse_fuel_eq (S (List.length text)) text ltac:(lia))); lia.
Qed.

(** ** Numbers *)

Lemma Number_isInteger_integral x :
  Number_isInteger (JNumber x) = true <-> integral x.
Proof.
  destruct x as [| |m e]; simpl; try (split; [discriminate|tauto]).
  destruct (Z.leb_spec 0 e) as [He|He]; simpl.
  - split; [intros _|reflexivity].
    exists (m * 2 ^ e).
    rewrite Z.max_r by lia. rewrite Z.max_l by lia. simpl. lia.
  - assert (Hp : 0 < 2 ^ (- e)) by (apply Z.pow_pos_nonneg; lia).
    rewrite Z.eqb_eq. rewrite Z.max_l by lia. rewrite Z.max_r by lia.
    change (2 ^ 0) with 1. split.
    + intros H. exists (m / 2 ^ (- e)).
      pose proof (Z.div_mod m (2 ^ (- e)) ltac:(lia)). lia.
    + intros [z Hz]. rewrite Z.mul_1_r in Hz. subst m.
      apply Z.mod_mul. lia.
Qed.

Lemma mk_finite_odd negative p e :
  Z.odd (Zpos p) = true ->
  mk_finite negative (Zpos p) e =
  Finite (if negative then Zneg p else Zpos p) e.
Proof. destruct p; simpl; try discriminate; reflexivity. Qed.

Lemma mk_finite_shift negative (k : nat) :
  forall p e,
    mk_finite negative (Zpos p * 2 ^ Z.of_nat k) e =
    mk_finite negative (Zpos p) (e + Z.of_nat k).
Proof.
  induction k as [|k IH]; intros p e.
  - change (2 ^ Z.of_nat 0) with 1. change (Z.of_nat 0) with 0.
    rewrite Z.mul_1_r, Z.add_0_r. reflexivity.
  - rewrite Nat2Z.inj_succ, Z.pow_succ_r by lia.
    replace (Zpos p * (2 * 2 ^ Z.of_nat k))
      with (Zpos (xO p) * 2 ^ Z.of_nat k) by lia.
    rewrite IH. simpl. f_equal. 
    replace (e + Z.succ (Z.of_nat k)) with (e + Z.of_nat k + 1) by lia.
    reflexivity.
Qed.

(** Rounding is exact on a value that is a Number. *)
Lemma binary64_round_exact negative p e :
  Z.odd (Zpos p) = true -> Zpos p < 2 ^ 53 -> 0 <= e ->
  Zpos p * 2 ^ e < 2 ^ 1024 ->
  binary64_round negative (Zpos p * 2 ^ e) 1 =
  Finite (if negative then Zneg p else Zpos p) e.
Proof.
  intros Hodd Hp He Hv.
  set (L := Z.log2 (Zpos p)).
  assert (HL : 0 <= L < 53).
  { split; [apply Z.log2_nonneg|]. apply Z.log2_lt_pow2; lia. }
  assert (Hlog : Z.log2 (Zpos p * 2 ^ e) = e + L).
  { apply Z.log2_mul_pow2; lia. }
  unfold binary64_round.
  rewrite Hlog. change (Z.log2 1) with 0.
  set (e0 := e + L - 0 - 54).
  set (k := 54 - L).
  assert (Hq : (if 0 <=? e0 then Zpos p * 2 ^ e
                else Zpos p * 2 ^ e * 2 ^ (- e0))
               = Zpos p * 2 ^ k * (if 0 <=? e0 then 1 * 2 ^ e0 else 1)).
  { destruct (Z.leb_spec 0 e0).
    - replace e with (k + e0) at 1 by (unfold k, e0; lia).
      rewrite Z.pow_add_r by (unfold k; lia). lia.
    - rewrite <- Z.mul_assoc, <- Z.pow_add_r by lia.
      replace (e + - e0) with k by (unfold k, e0; lia). lia. }
  rewrite Hq.
  set (d := if 0 <=? e0 then 1 * 2 ^ e0 else 1).
  assert (Hd : 0 < d).
  { unfold d. destruct (Z.leb_spec 0 e0); [|lia].
    pose proof (Z.pow_pos_nonneg 2 e0). lia. }
  rewrite Z.div_mul by lia. rewrite Z.mod_mul by lia.
  assert (Hlq : Z.log2 (Zpos p * 2 ^ k) = 54).
  { rewrite Z.log2_mul_pow2 by (unfold k; lia). unfold k, L. lia. }
  rewrite Hlq.
  replace (Z.max (54 + 1 - 53) (- 1074 - e0)) with 2 by (unfold e0; lia).
  assert (Hk : Zpos p * 2 ^ k = Zpos p * 2 ^ (k - 2) * 2 ^ 2).
  { rewrite <- Z.mul_assoc, <- Z.pow_add_r by (unfold k; lia).
    f_equal. f_equal. lia. }
  rewrite Hk. rewrite Z.div_mul by lia. rewrite Z.mod_mul by lia.
  change (2 ^ (2 - 1) <? 0) with false.
  change (0 =? 2 ^ (2 - 1)) with false.
  cbn [orb andb negb].
  assert (Hover : (2 ^ 1024 <=? Zpos p * 2 ^ (k - 2) * 2 ^ (e0 + 2)) = false).
  { apply Z.leb_gt.
    destruct (Z.le_gt_cases 0 (e0 + 2)).
    - rewrite <- Z.mul_assoc, <- Z.pow_add_r by (unfold k; lia).
      replace (k - 2 + (e0 + 2)) with e by (unfold k, e0; lia). exact Hv.
    - rewrite (Z.pow_neg_r 2 (e0 + 2)) by lia. rewrite Z.mul_0_r.
      apply Z.pow_pos_nonneg; lia. }
  rewrite Hover.
  replace (k - 2) with (Z.of_nat (Z.to_nat (k - 2))) by (unfold k; lia).
  rewrite mk_finite_shift, mk_finite_odd by exact Hodd.
  f_equal. unfold k, e0. lia.
Qed.


(** ** The shape check *)

Lemma is_string_true v : is_string v = true -> exists s, v = JString s.
Proof. destruct v; simpl; try discriminate. intros _. now exists s. Qed.

Lemma every_string_map ts : forallb is_string (map JString ts) = true.
Proof. induction ts as [|t ts IH]; simpl; auto. Qed.

Lemma every_string_inv l :
  forallb is_string l = true -> exists ts, l = map JString ts.
Proof.
  induction l as [|v l IH]; simpl; intros H.
  - now exists [].
  - apply andb_true_iff in H as [Hv Hl].
    destruct (is_string_true _ Hv) as [t ->].
    destruct (IH Hl) as [ts ->].
    now exists (t :: ts).
Qed.

Lemma containsReportData_object props :
  containsReportData (JObject props) = Normal (shape_of_properties props).
Proof.
  unfold containsReportData, shape_of_properties, Get, prop_key.
  destruct (lookup_prop (js "sender") props) as [[]|];
    destruct (lookup_prop (js "received_at") props) as [r|];
    try reflexivity;
    destruct (lookup_prop (js "trackers") props) as [[]|];
    cbn [typeof String.eqb Ascii.eqb Bool.eqb bind and_then andb is_null negb];
    try reflexivity;
    destruct (Number_isInteger r); reflexivity.
Qed.

Lemma containsReportData_other v :
  (forall props, v <> JObject props) -> containsReportData v = Normal false.
Proof.
  intros H. destruct v; try reflexivity. now elim (H properties).
Qed.

(** The check throws on no value. *)
Lemma containsReportData_total v : exists b, containsReportData v = Normal b.
Proof.
  destruct v; try (now exists false).
  eexists. apply containsReportData_object.
Qed.

(** The check accepts exactly the values of the shape the specification
    asks for. *)
Lemma containsReportData_valid v :
  containsReportData v = Normal true <-> valid_ReportData v.
Proof.
  split.
  - intros H. destruct v; try discriminate H.
    rewrite containsReportData_object in H. injection H as H.
    unfold shape_of_properties in H.
    apply andb_true_iff in H as [H Ht]. apply andb_true_iff in H as [Hs Hr].
    destruct (lookup_prop (js "sender") properties) as [[]|] eqn:Es;
      try discriminate Hs.
    destruct (lookup_prop (js "received_at") properties) as [x|] eqn:Er;
      try discriminate Hr.
    destruct x; try discriminate Hr.
    apply Number_isInteger_integral in Hr.
    destruct (lookup_prop (js "trackers") properties) as [[]|] eqn:Et;
      try discriminate Ht.
    destruct (every_string_inv _ Ht) as [ts ->].
    exists properties, s, x, ts. auto.
  - intros (props & S & T & ts & -> & Hs & Hr & Hi & Ht).
    apply Number_isInteger_integral in Hi.
    rewrite containsReportData_object. unfold shape_of_properties.
    rewrite Hs, Hr, Ht, Hi, every_string_map. reflexivity.
Qed.

Lemma valid_ReportData_dec v : valid_ReportData v \/ ~ valid_ReportData v.
Proof.
  destruct (containsReportData_total v) as [[] H].
  - left. now apply containsReportData_valid.
  - right. intros Hv. apply containsReportData_valid in Hv. congruence.
Qed.

(** ** [parseHash] through its decoded body *)

Lemma parseHash_decoded hash :
  parseHash hash =
  match decoded_body hash with
  | Normal data =>
      match containsReportData data with
      | Normal true =>
          try_catch
            (sender <- Get data p_sender ;;
             received_at <- Get data p_received_at ;;
             trackers <- Get data p_trackers ;;
             Normal (JObject [ (js "sender", sender);
                               (js "received_at", received_at);
                               (js "trackers", trackers) ]))
            (fun _ => Normal JNull)
      | _ => Normal JNull
      end
  | Throw _ => Normal JNull
  end.
Proof.
  unfold parseHash, decoded_body.
  destruct (decodeURIComponent (substring hash 1)) as [decoded|]; simpl;
    [|reflexivity].
  destruct (JSON_parse decoded) as [data|]; simpl; [|reflexivity].
  destruct (containsReportData data) as [[]|]; reflexivity.
Qed.

Lemma parseHash_accepts hash props S T ts :
  decoded_body hash = Normal (JObject props) ->
  lookup_prop (js "sender") props = Some (JString S) ->
  lookup_prop (js "received_at") props = Some (JNumber T) ->
  integral T ->
  lookup_prop (js "trackers") props = Some (JArray (map JString ts)) ->
  parseHash hash = Normal (ReportData S T ts).
Proof.
  intros Hd Hs Hr Hi Ht.
  rewrite parseHash_decoded, Hd.
  assert (Hc : containsReportData (JObject props) = Normal true).
  { apply containsReportData_valid. exists props, S, T, ts. auto. }
  rewrite Hc. unfold Get, prop_key. rewrite Hs, Hr, Ht. reflexivity.
Qed.

Lemma parseHash_rejects hash v :
  decoded_body hash = Normal v -> ~ valid_ReportData v ->
  parseHash hash = Normal JNull.
Proof.
  intros Hd Hv. rewrite parseHash_decoded, Hd.
  destruct (containsReportData_total v) as [[] Hc]; rewrite Hc; auto.
  now apply containsReportData_valid in Hc.
Qed.

Lemma parseHash_throw hash e :
  decoded_body hash = Throw e -> parseHash hash = Normal JNull.
Proof. intros Hd. now rewrite parseHash_decoded, Hd. Qed.

Lemma ReportData_not_null S T ts : ReportData S T ts <> JNull.
Proof. discriminate. Qed.

(** ** Accepted inputs *)

Lemma example_decoded : decoded_body example_hash = Normal (JObject example_properties).
Proof. vm_compute. reflexivity. Qed.

(** C1.  When the decoded body of the fragment is a record with a string
    [sender] S, an integer [received_at] T and a [trackers] sequence of
    strings t1..tn, [parseHash] returns the record with exactly the three
    fields S, T and t1..tn, in the same order and with duplicates kept. *)
Theorem parseHash_valid_input hash props S T ts :
  decoded_body hash = Normal (JObject props) ->
  lookup_prop (js "sender") props = Some (JString S) ->
  lookup_prop (js "received_at") props = Some (JNumber T) ->
  integral T ->
  lookup_prop (js "trackers") props = Some (JArray (map JString ts)) ->
  parseHash hash = Normal (ReportData S T ts).
Proof. apply parseHash_accepts. Qed.

Lemma parseHash_valid_input_witness :
  parseHash example_hash =
  Normal (ReportData (js "email@example.com") (Finite 1654866361357 0)
            [js "ads.facebook.com"; js "hi.com"]).
Proof.
  apply (parseHash_valid_input example_hash example_properties
           (js "email@example.com") (Finite 1654866361357 0)
           [js "ads.facebook.com"; js "hi.com"]).
  - vm_compute. reflexivity.
  - vm_compute. reflexivity.
  - vm_compute. reflexivity.
  - exists 1654866361357. reflexivity.
  - vm_compute. reflexivity.
Defined.

Lemma parseHash_result hash :
  parseHash hash = Normal JNull \/
  exists props S T ts,
    decoded_body hash = Normal (JObject props) /\
    lookup_prop (js "sender") props = Some (JString S) /\
    lookup_prop (js "received_at") props = Some (JNumber T) /\
    integral T /\
    lookup_prop (js "trackers") props = Some (JArray (map JString ts)) /\
    parseHash hash = Normal (ReportData S T ts).
Proof.
  destruct (decoded_body hash) as [v|e] eqn:Hd.
  - destruct (valid_ReportData_dec v) as [Hv|Hv].
    + right. destruct Hv as (props & S & T & ts & -> & Hs & Hr & Hi & Ht).
      exists props, S, T, ts.
      repeat split; auto. now apply parseHash_accepts with props.
    + left. now apply parseHash_rejects with v.
  - left. now apply parseHash_throw with e.
Qed.

(** C2, as stated, fails: the timestamp is not renamed.  On an accepted
    input, the result has no [receivedAt] field (not even when the input has
    one); the timestamp is under [received_at]. *)
Lemma parseHash_no_rename :
  exists props,
    parseHash extra_hash = Normal (JObject props) /\
    map fst props = [js "sender"; js "received_at"; js "trackers"] /\
    lookup_prop (js "receivedAt") props = None /\
    lookup_prop (js "received_at") props = Some (JNumber (Finite 1 0)).
Proof. eexists. vm_compute. repeat split; reflexivity. Qed.

(** C2, amended.  On every successful parse the result is built from
    exactly three fields of the input record, [sender], [received_at] and
    [trackers], each under its own name; any other field of the input is
    dropped. *)
Theorem parseHash_copies_three_fields hash result :
  parseHash hash = Normal result -> result <> JNull ->
  exists props S T ts,
    decoded_body hash = Normal (JObject props) /\
    lookup_prop (js "sender") props = Some (JString S) /\
    lookup_prop (js "received_at") props = Some (JNumber T) /\
    lookup_prop (js "trackers") props = Some (JArray (map JString ts)) /\
    result = JObject [ (js "sender", JString S);
                       (js "received_at", JNumber T);
                       (js "trackers", JArray (map JString ts)) ].
Proof.
  intros Hp Hn.
  destruct (parseHash_result hash)
    as [H|(props & S & T & ts & Hd & Hs & Hr & _ & Ht & H)];
    rewrite H in Hp; injection Hp as <-.
  - now elim Hn.
  - exists props, S, T, ts. auto.
Qed.

Lemma parseHash_copies_three_fields_witness :
  exists props S T ts,
    decoded_body extra_hash = Normal (JObject props) /\
    lookup_prop (js "sender") props = Some (JString S) /\
    lookup_prop (js "received_at") props = Some (JNumber T) /\
    lookup_prop (js "trackers") props = Some (JArray (map JString ts)) /\
    ReportData (js "a@b.com") (Finite 1 0) [] =
    JObject [ (js "sender", JString S);
              (js "received_at", JNumber T);
              (js "trackers", JArray (map JString ts)) ].
Proof.
  apply (parseHash_copies_three_fields extra_hash
           (ReportData (js "a@b.com") (Finite 1 0) [])).
  - vm_compute. reflexivity.
  - discriminate.
Defined.

(** C3.  A decoded value is accepted if and only if it is a record whose
    [sender] is a string, whose [received_at] is an integer and whose
    [trackers] is a sequence of strings; any other value is rejected as a
    whole, with [null] for a result. *)
Theorem parseHash_accepts_iff_valid hash v :
  decoded_body hash = Normal v ->
  (containsReportData v = Normal true <-> valid_ReportData v) /\
  ((exists S T ts, parseHash hash = Normal (ReportData S T ts))
   <-> valid_ReportData v) /\
  (parseHash hash = Normal JNull <-> ~ valid_ReportData v).
Proof.
  intros Hd. split; [apply containsReportData_valid|].
  destruct (valid_ReportData_dec v) as [Hv|Hv].
  - assert (Ha : exists S T ts, parseHash hash = Normal (ReportData S T ts)).
    { destruct Hv as (props & S & T & ts & -> & Hs & Hr & Hi & Ht).
      exists S, T, ts. now apply parseHash_accepts with props. }
    split; [tauto|]. split; [|tauto].
    destruct Ha as (S & T & ts & Ha). rewrite Ha. discriminate.
  - pose proof (parseHash_rejects hash v Hd Hv) as Hr.
    split; [|tauto]. split; [|tauto].
    intros (S & T & ts & Ha). rewrite Ha in Hr. discriminate.
Qed.

Lemma parseHash_accepts_iff_valid_witness :
  (containsReportData (JObject example_properties) = Normal true
   <-> valid_ReportData (JObject example_properties)) /\
  ((exists S T ts, parseHash example_hash = Normal (ReportData S T ts))
   <-> valid_ReportData (JObject example_properties)) /\
  (parseHash example_hash = Normal JNull
   <-> ~ valid_ReportData (JObject example_properties)).
Proof.
  apply (parseHash_accepts_iff_valid example_hash (JObject example_properties)).
  vm_compute. reflexivity.
Defined.

(** ** Failures *)

Lemma array_decoded : decoded_body array_hash = Normal array_value.
Proof. vm_compute. reflexivity. Qed.

Lemma decoded_body_throw hash :
  (forall e, decodeURIComponent (substring hash 1) = Throw e ->
             decoded_body hash = Throw e) /\
  (forall decoded e,
      decodeURIComponent (substring hash 1) = Normal decoded ->
      JSON_parse decoded = Throw e -> decoded_body hash = Throw e).
Proof.
  unfold decoded_body. split.
  - intros e ->. reflexivity.
  - intros decoded e -> H. exact H.
Qed.

(** C4.  For every input string [parseHash] returns: it yields either a
    [ReportData] record or [null], never both and never an exception; a
    percent-decoding error, a JSON syntax error and a value of the wrong
    shape all end in the same [null]. *)
Theorem parseHash_total hash :
  (parseHash hash = Normal JNull \/
   exists S T ts, integral T /\
                  parseHash hash = Normal (ReportData S T ts)) /\
  ~ (parseHash hash = Normal JNull /\
     exists S T ts, parseHash hash = Normal (ReportData S T ts)) /\
  (forall e, parseHash hash <> Throw e) /\
  (forall e, decodeURIComponent (substring hash 1) = Throw e ->
             parseHash hash = Normal JNull) /\
  (forall decoded e,
      decodeURIComponent (substring hash 1) = Normal decoded ->
      JSON_parse decoded = Throw e -> parseHash hash = Normal JNull) /\
  (forall v, decoded_body hash = Normal v -> ~ valid_ReportData v ->
             parseHash hash = Normal JNull).
Proof.
  assert (H : parseHash hash = Normal JNull \/
              exists S T ts, integral T /\
                             parseHash hash = Normal (ReportData S T ts)).
  { destruct (parseHash_result hash)
      as [H|(props & S & T & ts & _ & _ & _ & Hi & _ & H)]; [now left|].
    right. now exists S, T, ts. }
  split; [exact H|]. split; [|split; [|split; [|split]]].
  - intros [Hn (S & T & ts & Hr)]. rewrite Hn in Hr. discriminate.
  - intros e He. destruct H as [H|(S & T & ts & _ & H)]; congruence.
  - intros e He. apply parseHash_throw with e.
    now apply decoded_body_throw.
  - intros decoded e Hd He. apply parseHash_throw with e.
    now apply (proj2 (decoded_body_throw hash) decoded).
  - apply parseHash_rejects.
Qed.

Lemma parseHash_total_witness : parseHash array_hash = Normal JNull.
Proof.
  apply (proj2 (proj2 (proj2 (proj2 (proj2 (parseHash_total array_hash)))))
           array_value).
  - vm_compute. reflexivity.
  - intros (props & S & T & ts & H & _). discriminate H.
Defined.

(** C5.  [parseHash("")] and [parseHash("#")] are both [null]: without its
    first character either input is the empty string, which is not JSON. *)
Theorem parseHash_empty_fragment :
  substring (js "") 1 = [] /\
  substring (js "#") 1 = [] /\
  decodeURIComponent [] = Normal [] /\
  JSON_parse [] = Throw SyntaxError /\
  parseHash (js "") = Normal JNull /\
  parseHash (js "#") = Normal JNull.
Proof. repeat split. Qed.

(** C6.  When the decoded body is JSON but its top-level value is not a
    record (a primitive, or a sequence as in [#[1,2,3]]), [parseHash]
    returns [null]. *)
Theorem parseHash_not_a_record hash v :
  decoded_body hash = Normal v ->
  (forall props, v <> JObject props) ->
  parseHash hash = Normal JNull.
Proof.
  intros Hd Hv. apply parseHash_rejects with v; [exact Hd|].
  intros (props & S & T & ts & H & _). now elim (Hv props).
Qed.

Lemma parseHash_not_a_record_witness : parseHash array_hash = Normal JNull.
Proof.
  apply (parseHash_not_a_record array_hash array_value).
  - vm_compute. reflexivity.
  - discriminate.
Defined.

(** C9.  An empty [trackers] sequence is accepted: when the decoded body is
    a record with a string [sender], an integer [received_at] and
    [trackers] equal to [[]], [parseHash] returns a record with no
    trackers. *)
Theorem parseHash_no_trackers hash props S T :
  decoded_body hash = Normal (JObject props) ->
  lookup_prop (js "sender") props = Some (JString S) ->
  lookup_prop (js "received_at") props = Some (JNumber T) ->
  integral T ->
  lookup_prop (js "trackers") props = Some (JArray []) ->
  parseHash hash = Normal (ReportData S T []) /\
  Get (ReportData S T []) p_trackers = Normal (JArray []).
Proof.
  intros Hd Hs Hr Hi Ht. split; [|reflexivity].
  now apply parseHash_accepts with props.
Qed.

Lemma parseHash_no_trackers_witness :
  parseHash no_trackers_hash = Normal (ReportData (js "a@b.com") (Finite 1 0) [])
  /\ Get (ReportData (js "a@b.com") (Finite 1 0) []) p_trackers
     = Normal (JArray []).
Proof.
  apply (parseHash_no_trackers no_trackers_hash
           [ (js "sender", JString (js "a@b.com"));
             (js "received_at", JNumber (Finite 1 0));
             (js "trackers", JArray []) ]).
  - vm_compute. reflexivity.
  - vm_compute. reflexivity.
  - vm_compute. reflexivity.
  - exists 1. reflexivity.
  - vm_compute. reflexivity.
Defined.

(** C10.  When percent-decoding the body fails, as on a lone [%] or on the
    truncated escape [%2], [parseHash] returns the same [null] as on a JSON
    syntax error: the URIError is caught by the handler of line 201. *)
Theorem parseHash_malformed_escape hash e :
  decodeURIComponent (substring hash 1) = Throw e ->
  parseHash hash = Normal JNull /\
  decodeURIComponent (js "%") = Throw URIError /\
  decodeURIComponent (js "%2") = Throw URIError /\
  JSON_parse (js "{") = Throw SyntaxError /\
  parseHash (js "#{") = Normal JNull.
Proof.
  intros He. split; [|repeat split].
  apply parseHash_throw with e. now apply decoded_body_throw.
Qed.

Lemma parseHash_malformed_escape_witness :
  parseHash (js "#%2") = Normal JNull /\
  decodeURIComponent (js "%") = Throw URIError /\
  decodeURIComponent (js "%2") = Throw URIError /\
  JSON_parse (js "{") = Throw SyntaxError /\
  parseHash (js "#{") = Normal JNull.
Proof.
  apply (parseHash_malformed_escape (js "#%2") URIError).
  vm_compute. reflexivity.
Defined.

(** ** The examples of the specification and of the source *)

(** The URL of the comment at line 19. *)
Example parseHash_documented_url :
  parseHash (js "#{%22sender%22:%22email@example.com%22,%22received_at%22:1654866361357,%22trackers%22:[%22ads.facebook.com%22,%22ads.googletagmanager.com%22,%22hi.com%22]}")
  = Normal (ReportData (js "email@example.com") (Finite 1654866361357 0)
              [js "ads.facebook.com"; js "ads.googletagmanager.com";
               js "hi.com"]).
Proof. vm_compute. reflexivity. Qed.

Example parseHash_missing_trackers :
  parseHash (jsq "#{'sender':'a@b.com','received_at':1}") = Normal JNull.
Proof. vm_compute. reflexivity. Qed.

Example parseHash_non_string_tracker :
  parseHash (jsq "#{'sender':'a@b.com','received_at':1,'trackers':['x',2]}")
  = Normal JNull.
Proof. vm_compute. reflexivity. Qed.

Example parseHash_null_sender :
  parseHash (jsq "#{'sender':null,'received_at':1,'trackers':[]}")
  = Normal JNull.
Proof. vm_compute. reflexivity. Qed.

Example parseHash_fractional_timestamp :
  parseHash (jsq "#{'sender':'a@b.com','received_at':1.5,'trackers':[]}")
  = Normal JNull.
Proof. vm_compute. reflexivity. Qed.

Example parseHash_string_timestamp :
  parseHash (jsq "#{'sender':'a@b.com','received_at':'1','trackers':[]}")
  = Normal JNull.
Proof. vm_compute. reflexivity. Qed.

Example parseHash_exponent_timestamp :
  parseHash (jsq "#{'sender':'a@b.com','received_at':1.5e3,'trackers':[]}")
  = Normal (ReportData (js "a@b.com") (Finite 375 2) []).
Proof. vm_compute. reflexivity. Qed.

Example parseHash_duplicate_trackers :
  parseHash (jsq "#{'sender':'a@b.com','received_at':1,'trackers':['x','y','x']}")
  = Normal (ReportData (js "a@b.com") (Finite 1 0) [js "x"; js "y"; js "x"]).
Proof. vm_compute. reflexivity. Qed.

Example parseHash_null_body : parseHash (js "#null") = Normal JNull.
Proof. vm_compute. reflexivity. Qed.

Example parseHash_string_body :
  parseHash (jsq "#'sender'") = Normal JNull.
Proof. vm_compute. reflexivity. Qed.

(** ** The timestamp in decimal *)

Lemma to_digits_range fuel :
  forall n acc,
    0 <= n -> Forall is_decimal_digit acc ->
    Forall is_decimal_digit (to_digits fuel n acc).
Proof.
  induction fuel as [|fuel IH]; intros n acc Hn Hacc; simpl; [exact Hacc|].
  destruct (Z.ltb_spec n 10).
  - constructor; [unfold is_decimal_digit; lia|exact Hacc].
  - apply IH.
    + apply Z.div_pos; lia.
    + constructor; [|exact Hacc].
      pose proof (Z.mod_pos_bound n 10 ltac:(lia)).
      unfold is_decimal_digit. lia.
Qed.

Lemma to_digits_value fuel :
  forall n acc,
    0 <= n < 2 ^ Z.of_nat fuel ->
    fold_left (fun a d => 10 * a + d) (to_digits fuel n acc) 0 =
    fold_left (fun a d => 10 * a + d) acc n.
Proof.
  induction fuel as [|fuel IH]; intros n acc Hn.
  - change (2 ^ Z.of_nat 0) with 1 in Hn.
    replace n with 0 by lia. reflexivity.
  - simpl to_digits. destruct (Z.ltb_spec n 10).
    + reflexivity.
    + rewrite IH.
      * cbn [fold_left]. f_equal.
        pose proof (Z.div_mod n 10 ltac:(lia)). lia.
      * rewrite Nat2Z.inj_succ, Z.pow_succ_r in Hn by lia.
        split; [apply Z.div_pos; lia|].
        apply Z.div_lt_upper_bound; lia.
Qed.

Lemma to_digits_head fuel :
  forall n acc,
    0 < n < 2 ^ Z.of_nat fuel ->
    exists d ds, to_digits fuel n acc = d :: ds /\ 1 <= d <= 9.
Proof.
  induction fuel as [|fuel IH]; intros n acc Hn.
  - change (2 ^ Z.of_nat 0) with 1 in Hn. lia.
  - simpl to_digits. destruct (Z.ltb_spec n 10).
    + exists n, acc. split; [reflexivity|lia].
    + apply IH.
      rewrite Nat2Z.inj_succ, Z.pow_succ_r in Hn by lia.
      split.
      * apply Z.div_str_pos; lia.
      * apply Z.div_lt_upper_bound; lia.
Qed.

Lemma decimal_fuel n :
  0 <= n -> n < 2 ^ Z.of_nat (S (Z.to_nat (Z.log2 n))).
Proof.
  intros Hn. rewrite Nat2Z.inj_succ, Z2Nat.id by apply Z.log2_nonneg.
  destruct (Z.eq_dec n 0) as [->|Hz]; [reflexivity|].
  apply Z.log2_spec. lia.
Qed.

Lemma span_digits_text ds c rest :
  Forall is_decimal_digit ds -> is_digit c = false ->
  span_digits (map (fun d => 48 + d) ds ++ c :: rest) = (ds, c :: rest).
Proof.
  intros Hds Hc. induction Hds as [|d ds Hd _ IH].
  - cbn [map app span_digits]. rewrite Hc. reflexivity.
  - cbn [map app span_digits]. rewrite IH.
    replace (is_digit (48 + d)) with true
      by (unfold is_decimal_digit in Hd; unfold is_digit; lia).
    f_equal. f_equal. lia.
Qed.

Lemma parse_number_unfold s :
  parse_number s =
  let (negative, s1) :=
    match s with
    | c :: rest => if c =? 45 then (true, rest) else (false, s)
    | [] => (false, s)
    end in
  '(int, s2) <- parse_int s1 ;;
  '(frac, s3) <- parse_frac s2 ;;
  '(exp, s4) <- parse_exp s3 ;;
  Normal (decimal_to_number negative (digits_value (int ++ frac))
            (exp - Z.of_nat (List.length frac)), s4).
Proof. reflexivity. Qed.

Lemma decimal_digits n :
  0 <= n ->
  exists d ds,
    decimal n = 48 + d :: map (fun d => 48 + d) ds /\
    Forall is_decimal_digit (d :: ds) /\
    digits_value (d :: ds) = n /\
    (d = 0 -> ds = []).
Proof.
  intros Hn. unfold decimal.
  set (fuel := S (Z.to_nat (Z.log2 n))).
  pose proof (decimal_fuel n Hn) as Hfuel. fold fuel in Hfuel.
  pose proof (to_digits_range fuel n [] Hn (Forall_nil _)) as Hrange.
  pose proof (to_digits_value fuel n [] (conj Hn Hfuel)) as Hvalue.
  cbn [fold_left] in Hvalue.
  destruct (Z.eq_dec n 0) as [Hz|Hz].
  - exists 0, []. subst n. repeat split; auto.
  - destruct (to_digits_head fuel n [] ltac:(lia)) as (d & ds & Hh & Hd1).
    exists d, ds. rewrite Hh in *. repeat split; auto. lia.
Qed.

Lemma parse_number_decimal negative n c rest :
  0 <= n -> ends_number c = true ->
  parse_number (sign_text negative ++ decimal n ++ c :: rest)
  = Normal (decimal_to_number negative n 0, c :: rest).
Proof.
  intros Hn Hc.
  assert (Hdig : is_digit c = false /\ (c =? 46) = false /\
                 (c =? 101) = false /\ (c =? 69) = false).
  { unfold ends_number in Hc. apply negb_true_iff in Hc.
    repeat (apply orb_false_iff in Hc as [Hc ?]). auto. }
  destruct Hdig as (Hd & H46 & H101 & H69).
  destruct (decimal_digits n Hn) as (d & ds & -> & Hrange & Hvalue & Hlead).
  assert (Hd9 : 0 <= d <= 9) by (inversion Hrange; assumption).
  assert (Hint : parse_int ((48 + d :: map (fun d => 48 + d) ds) ++ c :: rest)
                 = Normal (d :: ds, c :: rest)).
  { pose proof (span_digits_text (d :: ds) c rest Hrange Hd) as Hspan.
    unfold parse_int. cbn [map app] in *.
    destruct (Z.eqb_spec (48 + d) 48) as [H0|H0].
    - assert (d = 0) by lia. subst d.
      rewrite (Hlead eq_refl). reflexivity.
    - replace (is_digit (48 + d)) with true by (unfold is_digit; lia).
      rewrite Hspan. reflexivity. }
  rewrite parse_number_unfold.
  assert (Hbody :
            ('(int, s2) <- parse_int ((48 + d :: map (fun d => 48 + d) ds)
                                      ++ c :: rest) ;;
             '(frac, s3) <- parse_frac s2 ;;
             '(exp, s4) <- parse_exp s3 ;;
             Normal (decimal_to_number negative (digits_value (int ++ frac))
                       (exp - Z.of_nat (List.length frac)), s4))
            = Normal (decimal_to_number negative n 0, c :: rest)).
  { rewrite Hint. cbn [bind parse_frac]. rewrite H46.
    cbn [bind parse_exp]. rewrite H101, H69. cbn [orb bind].
    rewrite app_nil_r, Hvalue. reflexivity. }
  destruct negative; cbn [sign_text app].
  - change (45 =? 45) with true. cbv iota. exact Hbody.
  - replace (48 + d =? 45) with false by lia. exact Hbody.
Qed.

Lemma integral_exponent m e :
  Z.odd m = true -> integral (Finite m e) -> 0 <= e.
Proof.
  intros Hodd [z Hz].
  destruct (Z.le_gt_cases 0 e) as [He|He]; [exact He|exfalso].
  rewrite Z.max_l, Z.max_r in Hz by lia.
  replace (- e) with (Z.succ (- e - 1)) in Hz by lia.
  rewrite Z.pow_succ_r in Hz by lia.
  change (2 ^ 0) with 1 in Hz.
  assert (Heven : Z.odd m = false).
  { replace m with (2 * (z * 2 ^ (- e - 1))) by lia.
    rewrite Z.odd_mul. reflexivity. }
  congruence.
Qed.

(** The decimal text of an integral Number denotes that Number. *)
Lemma decimal_to_number_integer x :
  is_binary64 x = true -> integral x ->
  decimal_to_number (integer_value x <? 0) (Z.abs (integer_value x)) 0 = x.
Proof.
  destruct x as [| |m e]; try contradiction.
  intros Hb Hi. unfold is_binary64 in Hb.
  apply orb_true_iff in Hb as [Hb|Hb].
  - apply andb_true_iff in Hb as [Hm He].
    apply Z.eqb_eq in Hm, He. subst. reflexivity.
  - repeat (apply andb_true_iff in Hb as [Hb ?]).
    pose proof (integral_exponent m e Hb Hi) as He.
    assert (Hpow : 0 < 2 ^ e) by (apply Z.pow_pos_nonneg; lia).
    unfold integer_value. replace (0 <=? e) with true by lia.
    unfold decimal_to_number.
    destruct m as [|p|p]; try discriminate Hb.
    + assert (Hv : 0 < Zpos p * 2 ^ e) by (apply Z.mul_pos_pos; lia).
      replace (Zpos p * 2 ^ e <? 0) with false by lia.
      replace (Z.abs (Zpos p * 2 ^ e)) with (Zpos p * 2 ^ e) by lia.
      replace (Zpos p * 2 ^ e =? 0) with false by lia.
      change (0 <=? 0) with true. cbv iota.
      change (10 ^ 0) with 1. rewrite Z.mul_1_r.
      apply (binary64_round_exact false); auto; lia.
    + assert (Hv : 0 < Zpos p * 2 ^ e) by (apply Z.mul_pos_pos; lia).
      assert (Hneg : Zneg p * 2 ^ e = - (Zpos p * 2 ^ e))
        by (rewrite <- Pos2Z.opp_pos; apply Z.mul_opp_l).
      rewrite Hneg.
      replace (- (Zpos p * 2 ^ e) <? 0) with true by lia.
      replace (Z.abs (- (Zpos p * 2 ^ e))) with (Zpos p * 2 ^ e) by lia.
      replace (Zpos p * 2 ^ e =? 0) with false by lia.
      change (0 <=? 0) with true. cbv iota.
      change (10 ^ 0) with 1. rewrite Z.mul_1_r.
      change (Z.abs (Zneg p)) with (Zpos p) in *.
      apply (binary64_round_exact true); auto; lia.
Qed.

Lemma parse_number_integer x c rest :
  is_binary64 x = true -> integral x -> ends_number c = true ->
  parse_number (integer_text (integer_value x) ++ c :: rest)
  = Normal (x, c :: rest).
Proof.
  intros Hb Hi Hc. unfold integer_text. rewrite <- app_assoc.
  rewrite parse_number_decimal by (auto; lia).
  rewrite decimal_to_number_integer by auto. reflexivity.
Qed.

(** ** Strings in the wire text *)

Lemma hex_digit_hex_char d :
  0 <= d < 16 -> hex_digit (hex_char d) = Some d.
Proof.
  intros Hd. unfold hex_digit, hex_char, is_digit.
  destruct (Z.ltb_spec d 10).
  - replace ((48 <=? 48 + d) && (48 + d <=? 57)) with true by lia.
    f_equal. lia.
  - replace ((48 <=? 87 + d) && (87 + d <=? 57)) with false by lia.
    replace ((65 <=? 87 + d) && (87 + d <=? 70)) with false by lia.
    replace ((97 <=? 87 + d) && (87 + d <=? 102)) with true by lia.
    f_equal. lia.
Qed.

Lemma hex4_control c :
  0 <= c < 32 ->
  hex4 48 48 (hex_char (c / 16)) (hex_char (c mod 16)) = Some c.
Proof.
  intros Hc. unfold hex4.
  change (hex_digit 48) with (Some 0).
  pose proof (Z.mod_pos_bound c 16 ltac:(lia)).
  pose proof (Z.div_mod c 16 ltac:(lia)).
  assert (0 <= c / 16 < 16).
  { split; [apply Z.div_pos; lia|apply Z.div_lt_upper_bound; lia]. }
  rewrite !hex_digit_hex_char by lia. f_equal. lia.
Qed.

Lemma parse_string_unicode_escape h1 h2 h3 h4 tail :
  parse_string (92 :: 117 :: h1 :: h2 :: h3 :: h4 :: tail) =
  match hex4 h1 h2 h3 h4 with
  | Some u => '(str, r) <- parse_string tail ;; Normal (u :: str, r)
  | None => Throw SyntaxError
  end.
Proof. reflexivity. Qed.

Lemma parse_string_plain c tail :
  (c =? 34) = false -> (c =? 92) = false -> (c <? 32) = false ->
  parse_string (c :: tail) =
  '(str, r) <- parse_string tail ;; Normal (c :: str, r).
Proof. intros H1 H2 H3. cbn [parse_string]. rewrite H1, H2, H3. reflexivity. Qed.

Lemma parse_string_quote_char c tail :
  0 <= c ->
  parse_string (quote_char c ++ tail) =
  '(str, r) <- parse_string tail ;; Normal (c :: str, r).
Proof.
  intros Hc. unfold quote_char.
  destruct (Z.eqb_spec c 34) as [->|H34]; [reflexivity|].
  destruct (Z.eqb_spec c 92) as [->|H92]; [reflexivity|].
  destruct (Z.eqb_spec c 8) as [->|H8]; [reflexivity|].
  destruct (Z.eqb_spec c 9) as [->|H9]; [reflexivity|].
  destruct (Z.eqb_spec c 10) as [->|H10]; [reflexivity|].
  destruct (Z.eqb_spec c 12) as [->|H12]; [reflexivity|].
  destruct (Z.eqb_spec c 13) as [->|H13]; [reflexivity|].
  destruct (Z.ltb_spec c 32) as [Hlt|Hge].
  - cbn [app]. rewrite parse_string_unicode_escape, hex4_control by lia.
    reflexivity.
  - cbn [app]. apply parse_string_plain; lia.
Qed.

Lemma well_formed_cons c s :
  well_formed (c :: s) = true -> 0 <= c < 65536 /\ well_formed s = true.
Proof.
  unfold well_formed. cbn [forallb]. intros H.
  apply andb_true_iff in H as [Hc Hs]. unfold is_code_unit in Hc.
  split; [lia|exact Hs].
Qed.

(** A quoted string is read back as the string. *)
Lemma parse_string_quote s rest :
  well_formed s = true ->
  parse_string (flat_map quote_char s ++ 34 :: rest) = Normal (s, rest).
Proof.
  induction s as [|c s IH]; intros Hs.
  - reflexivity.
  - apply well_formed_cons in Hs as [Hc Hs].
    cbn [flat_map]. rewrite <- app_assoc.
    rewrite parse_string_quote_char by lia.
    rewrite IH by exact Hs. reflexivity.
Qed.

Lemma parse_value_quote fuel s rest :
  well_formed s = true ->
  parse_value (S fuel) (quote s ++ rest) = Normal (JString s, rest).
Proof.
  intros Hs. rewrite parse_value_S. unfold quote.
  cbn [app skip_ws is_ws Z.eqb orb Pos.eqb].
  rewrite <- app_assoc. cbn [app].
  rewrite parse_string_quote by exact Hs. reflexivity.
Qed.

(** ** The JSON text of a report is read back as the report *)

Lemma quote_head s : exists tail, quote s = 34 :: tail.
Proof. unfold quote. eexists. reflexivity. Qed.

Lemma join_comma_cons x y items :
  join_comma (x :: y :: items) = x ++ 44 :: join_comma (y :: items).
Proof. reflexivity. Qed.

Lemma join_comma_quote_head t ts :
  exists tail, join_comma (map quote (t :: ts)) = 34 :: tail.
Proof.
  destruct ts as [|t' ts]; cbn [map].
  - apply quote_head.
  - rewrite join_comma_cons. unfold quote at 1. eexists. reflexivity.
Qed.

Lemma parse_elements_quoted ts :
  forall t fuel acc rest,
    forallb well_formed (t :: ts) = true ->
    (List.length ts + 2 <= fuel)%nat ->
    parse_elements fuel (join_comma (map quote (t :: ts)) ++ 93 :: rest) acc
    = Normal (JArray (acc ++ map JString (t :: ts)), rest).
Proof.
  induction ts as [|t' ts IH]; intros t fuel acc rest Hwf Hfuel;
    cbn [forallb] in Hwf; apply andb_true_iff in Hwf as [Ht Hts];
    destruct fuel as [|[|fuel]]; cbn [List.length] in Hfuel; try lia;
    rewrite parse_elements_S.
  - cbn [map join_comma].
    rewrite parse_value_quote by exact Ht. reflexivity.
  - cbn [map]. rewrite join_comma_cons, <- app_assoc.
    rewrite parse_value_quote by exact Ht.
    cbn [bind app skip_ws is_ws Z.eqb orb Pos.eqb].
    pose proof (IH t' (S fuel) (acc ++ [JString t]) rest Hts ltac:(lia))
      as IH'.
    cbn [map] in IH'. rewrite IH', <- app_assoc. reflexivity.
Qed.

Lemma parse_value_array fuel ts rest :
  forallb well_formed ts = true ->
  (List.length ts + 3 <= fuel)%nat ->
  parse_value fuel (91 :: join_comma (map quote ts) ++ 93 :: rest)
  = Normal (JArray (map JString ts), rest).
Proof.
  intros Hwf Hfuel. destruct fuel as [|fuel]; [lia|].
  rewrite parse_value_S. cbn [skip_ws is_ws Z.eqb orb Pos.eqb].
  destruct ts as [|t ts].
  - reflexivity.
  - destruct (join_comma_quote_head t ts) as [tail Htail].
    rewrite Htail at 1. cbn [app skip_ws is_ws Z.eqb orb Pos.eqb].
    rewrite parse_elements_quoted by (auto; cbn [List.length] in Hfuel; lia).
    reflexivity.
Qed.

Lemma integer_text_head z rest :
  exists c tail,
    integer_text z ++ rest = c :: tail /\ (c = 45 \/ 48 <= c <= 57).
Proof.
  unfold integer_text.
  destruct (decimal_digits (Z.abs z) (Z.abs_nonneg z))
    as (d & ds & -> & Hrange & _).
  assert (Hd : 0 <= d <= 9) by (inversion Hrange; assumption).
  destruct (z <? 0); cbn [sign_text app]; eexists; eexists;
    (split; [reflexivity|lia]).
Qed.

Lemma parse_value_integer fuel x c rest :
  is_binary64 x = true -> integral x -> ends_number c = true ->
  (1 <= fuel)%nat ->
  parse_value fuel (integer_text (integer_value x) ++ c :: rest)
  = Normal (JNumber x, c :: rest).
Proof.
  intros Hb Hi Hc Hfuel. destruct fuel as [|fuel]; [lia|].
  rewrite parse_value_S.
  pose proof (parse_number_integer x c rest Hb Hi Hc) as Hn.
  destruct (integer_text_head (integer_value x) (c :: rest))
    as (c0 & tail & Htext & Hc0).
  rewrite Htext in *. cbn [skip_ws].
  replace (is_ws c0) with false by (unfold is_ws; lia).
  replace (c0 =? 123) with false by lia.
  replace (c0 =? 91) with false by lia.
  replace (c0 =? 34) with false by lia.
  replace ((c0 =? 45) || is_digit c0) with true by (unfold is_digit; lia).
  rewrite Hn. reflexivity.
Qed.

(** One member [key:value] of an object, followed by [c]. *)
Lemma parse_members_member fuel key v text c rest acc :
  well_formed key = true ->
  parse_value fuel (text ++ c :: rest) = Normal (v, c :: rest) ->
  is_ws c = false ->
  parse_members (S fuel) (quote key ++ 58 :: text ++ c :: rest) acc =
  if c =? 44 then parse_members fuel rest (set_prop key v acc)
  else if c =? 125 then Normal (JObject (set_prop key v acc), rest)
  else Throw SyntaxError.
Proof.
  intros Hkey Hv Hc. rewrite parse_members_S. unfold quote.
  cbn [app skip_ws is_ws Z.eqb orb Pos.eqb].
  rewrite <- app_assoc. cbn [app].
  rewrite parse_string_quote by exact Hkey.
  cbn [bind skip_ws is_ws Z.eqb orb Pos.eqb].
  rewrite Hv. cbn [bind skip_ws]. rewrite Hc. reflexivity.
Qed.

Lemma parse_value_wire fuel S T ts :
  well_formed S = true -> forallb well_formed ts = true ->
  is_binary64 T = true -> integral T ->
  (List.length ts + 7 <= fuel)%nat ->
  parse_value fuel (wire_json S T ts) = Normal (ReportData S T ts, []).
Proof.
  intros HS Hts Hb Hi Hfuel.
  destruct fuel as [|[|[|[|fuel]]]]; try lia.
  rewrite parse_value_S. unfold wire_json.
  cbn [skip_ws is_ws Z.eqb orb Pos.eqb].
  destruct (quote_head (js "sender")) as [tail Htail].
  rewrite Htail at 1. cbn [app skip_ws is_ws Z.eqb orb Pos.eqb].
  rewrite (parse_members_member _ (js "sender") (JString S) (quote S) 44);
    [|reflexivity|apply parse_value_quote; exact HS|reflexivity].
  change (44 =? 44) with true. cbv iota.
  rewrite (parse_members_member _ (js "received_at") (JNumber T)
             (integer_text (integer_value T)) 44);
    [|reflexivity|apply parse_value_integer; auto; lia|reflexivity].
  change (44 =? 44) with true. cbv iota.
  replace (58 :: 91 :: join_comma (map quote ts) ++ [93; 125])
    with (58 :: (91 :: join_comma (map quote ts) ++ [93]) ++ 125 :: [])
    by (cbn [app]; rewrite <- app_assoc; reflexivity).
  rewrite (parse_members_member _ (js "trackers") (JArray (map JString ts))
             (91 :: join_comma (map quote ts) ++ [93]) 125);
    [reflexivity|reflexivity| |reflexivity].
  cbn [app]. rewrite <- app_assoc. cbn [app].
  apply parse_value_array; [exact Hts|].
  cbn [List.length] in Hfuel. lia.
Qed.

Lemma JSON_parse_wire S T ts :
  well_formed S = true -> forallb well_formed ts = true ->
  is_binary64 T = true -> integral T ->
  JSON_parse (wire_json S T ts) = Normal (ReportData S T ts).
Proof.
  intros HS Hts Hb Hi. unfold JSON_parse.
  set (text := wire_json S T ts).
  rewrite <- (parse_value_fuel text
                (2 * List.length text + 1 + (List.length ts + 7))) by lia.
  unfold text. rewrite parse_value_wire by (auto; lia). reflexivity.
Qed.

(** ** Percent signs in the fragment *)

Lemma escape_percent_cons c s :
  escape_percent (c :: s) =
  (if c =? 37 then [37; 50; 53] else [c]) ++ escape_percent s.
Proof. reflexivity. Qed.

Lemma Decode_escape_percent s :
  forall fuel,
    (List.length (escape_percent s) <= fuel)%nat ->
    Decode fuel (escape_percent s) = Normal s.
Proof.
  induction s as [|c s IH]; intros fuel Hfuel.
  - destruct fuel; reflexivity.
  - rewrite escape_percent_cons in *. rewrite length_app in Hfuel.
    destruct (Z.eqb_spec c 37) as [->|Hc];
      cbn [List.length] in Hfuel; (destruct fuel as [|fuel]; [lia|]).
    + cbn [app Decode Z.eqb Pos.eqb negb percent_octet].
      change (hex_pair 50 53) with (Some 37).
      cbv iota beta. change (leading_ones 37 =? 0) with true. cbv iota.
      rewrite IH by lia. reflexivity.
    + cbn [app Decode]. replace (negb (c =? 37)) with true by lia.
      rewrite IH by lia. reflexivity.
Qed.

Lemma decodeURIComponent_escape_percent s :
  decodeURIComponent (escape_percent s) = Normal s.
Proof. unfold decodeURIComponent. apply Decode_escape_percent. lia. Qed.

Lemma escape_percent_free s :
  percent_free s = true -> escape_percent s = s.
Proof.
  unfold percent_free, escape_percent.
  induction s as [|c s IH]; cbn [forallb flat_map]; intros H;
    [reflexivity|].
  apply andb_true_iff in H as [Hc Hs].
  rewrite IH by exact Hs. destruct (c =? 37); [discriminate Hc|reflexivity].
Qed.

Lemma percent_free_app a b :
  percent_free (a ++ b) = percent_free a && percent_free b.
Proof. apply forallb_app. Qed.

Lemma percent_free_hex_char d : 0 <= d -> negb (hex_char d =? 37) = true.
Proof.
  intros Hd. unfold hex_char.
  destruct (d <? 10); apply negb_true_iff, Z.eqb_neq; lia.
Qed.

Lemma percent_free_quote_char c :
  0 <= c -> percent_free (quote_char c) = negb (c =? 37).
Proof.
  intros Hc. unfold quote_char.
  destruct (Z.eqb_spec c 34) as [->|H34]; [reflexivity|].
  destruct (Z.eqb_spec c 92) as [->|H92]; [reflexivity|].
  destruct (Z.eqb_spec c 8) as [->|H8]; [reflexivity|].
  destruct (Z.eqb_spec c 9) as [->|H9]; [reflexivity|].
  destruct (Z.eqb_spec c 10) as [->|H10]; [reflexivity|].
  destruct (Z.eqb_spec c 12) as [->|H12]; [reflexivity|].
  destruct (Z.eqb_spec c 13) as [->|H13]; [reflexivity|].
  destruct (Z.ltb_spec c 32) as [Hlt|Hge].
  - unfold percent_free. cbn [forallb].
    rewrite !percent_free_hex_char.
    + replace (c =? 37) with false by lia. reflexivity.
    + apply Z.mod_pos_bound. lia.
    + apply Z.div_pos; lia.
  - unfold percent_free. cbn [forallb]. apply andb_true_r.
Qed.

Lemma percent_free_flat_map s :
  well_formed s = true ->
  percent_free (flat_map quote_char s) = percent_free s.
Proof.
  induction s as [|c s IH]; intros Hs; [reflexivity|].
  apply well_formed_cons in Hs as [Hc Hs].
  cbn [flat_map].
  rewrite percent_free_app, percent_free_quote_char, IH by (lia || exact Hs).
  reflexivity.
Qed.

Lemma percent_free_quote s :
  well_formed s = true -> percent_free (quote s) = percent_free s.
Proof.
  intros Hs. unfold quote.
  change (34 :: flat_map quote_char s ++ [34])
    with ([34] ++ flat_map quote_char s ++ [34]).
  rewrite !percent_free_app, percent_free_flat_map by exact Hs.
  change (percent_free [34]) with true. cbn [andb]. apply andb_true_r.
Qed.

Lemma percent_free_join ts :
  forallb well_formed ts = true -> forallb percent_free ts = true ->
  percent_free (join_comma (map quote ts)) = true.
Proof.
  induction ts as [|t ts IH]; [reflexivity|].
  cbn [forallb]. intros Hwf Hpf.
  apply andb_true_iff in Hwf as [Ht Hts].
  apply andb_true_iff in Hpf as [Hpt Hpts].
  destruct ts as [|t' ts].
  - cbn [map join_comma]. rewrite percent_free_quote; assumption.
  - cbn [map]. rewrite join_comma_cons.
    change (44 :: ?l) with ([44] ++ l).
    rewrite !percent_free_app, percent_free_quote by assumption.
    rewrite Hpt. pose proof (IH Hts Hpts) as IH'. cbn [map] in IH'.
    rewrite IH'. reflexivity.
Qed.

Lemma percent_free_digits ds :
  Forall is_decimal_digit ds ->
  percent_free (map (fun d => 48 + d) ds) = true.
Proof.
  unfold percent_free. induction 1 as [|d ds Hd _ IH]; [reflexivity|].
  cbn [map forallb]. rewrite IH. unfold is_decimal_digit in Hd.
  replace (48 + d =? 37) with false by lia. reflexivity.
Qed.

Lemma percent_free_integer_text z : percent_free (integer_text z) = true.
Proof.
  unfold integer_text. rewrite percent_free_app.
  destruct (decimal_digits (Z.abs z) (Z.abs_nonneg z))
    as (d & ds & -> & Hrange & _).
  change (48 + d :: map (fun d => 48 + d) ds)
    with (map (fun d => 48 + d) (d :: ds)).
  rewrite percent_free_digits by exact Hrange.
  destruct (z <? 0); reflexivity.
Qed.

Lemma percent_free_wire S T ts :
  well_formed S = true -> forallb well_formed ts = true ->
  percent_free S = true -> forallb percent_free ts = true ->
  percent_free (wire_json S T ts) = true.
Proof.
  intros HS Hts HpS Hpts. unfold wire_json.
  repeat match goal with
         | |- context [?c :: ?l ++ ?r] =>
             change (c :: l ++ r) with ([c] ++ l ++ r)
         end.
  change (58 :: 91 :: join_comma (map quote ts) ++ [93; 125])
    with ([58; 91] ++ join_comma (map quote ts) ++ [93; 125]).
  rewrite !percent_free_app.
  rewrite !percent_free_quote by (exact HS || reflexivity).
  rewrite percent_free_integer_text, percent_free_join, HpS by assumption.
  reflexivity.
Qed.

(** ** The round trip *)

Lemma parseHash_wire_fragment S T ts :
  well_formed S = true -> forallb well_formed ts = true ->
  is_binary64 T = true -> integral T ->
  parseHash (wire_fragment S T ts) = Normal (ReportData S T ts).
Proof.
  intros HS Hts Hb Hi.
  apply parseHash_accepts
    with (props := [ (js "sender", JString S);
                     (js "received_at", JNumber T);
                     (js "trackers", JArray (map JString ts)) ]);
    try reflexivity; [|exact Hi].
  unfold decoded_body, wire_fragment, substring. cbn [skipn].
  rewrite decodeURIComponent_escape_percent. cbn [bind].
  apply JSON_parse_wire; assumption.
Qed.

(** C7, as stated, fails: the JSON text placed after [#] as it is does not
    come back when a string holds a percent sign.  A sender with [%o] makes
    the percent-decoding throw, and the parse returns [null]; a sender with
    [%40] comes back with [@] in its place. *)
Lemma raw_round_trip_fails :
  well_formed percent_sender = true /\
  is_binary64 (Finite 1654866361357 0) = true /\
  integral (Finite 1654866361357 0) /\
  parseHash (raw_fragment percent_sender (Finite 1654866361357 0) [])
  = Normal JNull /\
  parseHash (raw_fragment percent_sender (Finite 1654866361357 0) [])
  <> Normal (ReportData percent_sender (Finite 1654866361357 0) []) /\
  parseHash (raw_fragment escaped_sender (Finite 1654866361357 0) [])
  = Normal (ReportData (js "a@b.com") (Finite 1654866361357 0) []) /\
  parseHash (raw_fragment escaped_sender (Finite 1654866361357 0) [])
  <> Normal (ReportData escaped_sender (Finite 1654866361357 0) []).
Proof.
  split; [reflexivity|]. split; [reflexivity|].
  split; [exists 1654866361357; reflexivity|].
  assert (H1 : parseHash (raw_fragment percent_sender
                            (Finite 1654866361357 0) []) = Normal JNull)
    by (vm_compute; reflexivity).
  assert (H2 : parseHash (raw_fragment escaped_sender
                            (Finite 1654866361357 0) [])
               = Normal (ReportData (js "a@b.com")
                           (Finite 1654866361357 0) []))
    by (vm_compute; reflexivity).
  split; [exact H1|]. split; [rewrite H1; discriminate|].
  split; [exact H2|]. rewrite H2. vm_compute. discriminate.
Qed.

(** C7, amended.  For every report (a sender and trackers that are
    strings, a timestamp that is an integral Number), the fragment made of
    [#] and the JSON text of the report, with each percent sign of the text
    written [%25], is parsed back to a record equal to the report in all
    three fields; when neither the sender nor a tracker holds a percent
    sign, that fragment is the JSON text placed after [#] as it is. *)
Theorem wire_round_trip S T ts :
  well_formed S = true -> forallb well_formed ts = true ->
  is_binary64 T = true -> integral T ->
  parseHash (wire_fragment S T ts) = Normal (ReportData S T ts) /\
  (percent_free S = true -> forallb percent_free ts = true ->
   wire_fragment S T ts = raw_fragment S T ts /\
   parseHash (raw_fragment S T ts) = Normal (ReportData S T ts)).
Proof.
  intros HS Hts Hb Hi.
  pose proof (parseHash_wire_fragment S T ts HS Hts Hb Hi) as Hw.
  split; [exact Hw|]. intros HpS Hpts.
  assert (He : wire_fragment S T ts = raw_fragment S T ts).
  { unfold wire_fragment, raw_fragment. f_equal.
    apply escape_percent_free. apply percent_free_wire; assumption. }
  split; [exact He|]. rewrite <- He. exact Hw.
Qed.

Lemma wire_round_trip_witness :
  parseHash (wire_fragment percent_sender (Finite 1654866361357 0)
               [js "ads.facebook.com"; js "hi.com"])
  = Normal (ReportData percent_sender (Finite 1654866361357 0)
              [js "ads.facebook.com"; js "hi.com"]).
Proof.
  apply (wire_round_trip percent_sender (Finite 1654866361357 0)
           [js "ads.facebook.com"; js "hi.com"]).
  - vm_compute. reflexivity.
  - vm_compute. reflexivity.
  - vm_compute. reflexivity.
  - exists 1654866361357. reflexivity.
Defined.

(** ** The parser and the state of the page *)

Lemma page_blind_ret {A : Type} (a : A) : page_blind (ret a).
Proof. intros w. split; [reflexivity|]. intros w' _. reflexivity. Qed.

Lemma page_blind_lift {A : Type} (c : completion A) : page_blind (lift c).
Proof. intros w. split; [reflexivity|]. intros w' _. reflexivity. Qed.

Lemma page_blind_bind {A B : Type} (m : action A) (k : A -> action B) :
  page_blind m -> (forall a, page_blind (k a)) -> page_blind (bind_st m k).
Proof.
  intros Hm Hk w. destruct (Hm w) as [Hs Hf]. split.
  - unfold bind_st. destruct (m w) as [[a|e] w1]; cbn [snd] in Hs; subst w1.
    + apply (Hk a w).
    + reflexivity.
  - intros w' Hw. specialize (Hf w' Hw). unfold bind_st.
    destruct (Hm w') as [Hs' _].
    destruct (m w) as [[a|e] w1], (m w') as [[a'|e'] w1'];
      cbn [fst snd] in *; subst; try discriminate.
    + injection Hf as ->. now apply (Hk a w).
    + now injection Hf as ->.
Qed.

Lemma page_blind_try_catch {A : Type} (body : action A) handler :
  page_blind body -> (forall e, page_blind (handler e)) ->
  page_blind (try_catch_st body handler).
Proof.
  intros Hm Hk w. destruct (Hm w) as [Hs Hf]. split.
  - unfold try_catch_st.
    destruct (body w) as [[a|e] w1]; cbn [snd] in Hs; subst w1.
    + reflexivity.
    + apply (Hk e w).
  - intros w' Hw. specialize (Hf w' Hw). unfold try_catch_st.
    destruct (Hm w') as [Hs' _].
    destruct (body w) as [[a|e] w1], (body w') as [[a'|e'] w1'];
      cbn [fst snd] in *; subst; try discriminate.
    + exact Hf.
    + injection Hf as ->. now apply (Hk e w).
Qed.

Lemma page_blind_Get_st v p : page_blind (Get_st v p).
Proof.
  assert (Hi : page_blind
                 (w <~ read_world ;;
                  ret match inherited w v p with
                      | Some x => x
                      | None => JUndefined
                      end)).
  { intros w. split; [reflexivity|]. intros w' Hw.
    unfold bind_st, read_world, ret. cbn [fst]. now rewrite (Hw v p). }
  unfold Get_st.
  destruct v; try apply page_blind_lift;
    (destruct (own_property _ p); [apply page_blind_ret | exact Hi]).
Qed.

Lemma page_blind_and_then a b :
  page_blind a -> page_blind b -> page_blind (a &&~ b).
Proof.
  intros Ha Hb. apply page_blind_bind; [exact Ha|].
  intros [|]; [exact Hb | apply page_blind_ret].
Qed.

Create HintDb page_blind.
#[local] Hint Resolve page_blind_ret page_blind_lift page_blind_Get_st
  page_blind_and_then : page_blind.

Lemma page_blind_containsReportData_st parsed :
  page_blind (containsReportData_st parsed).
Proof.
  unfold containsReportData_st.
  repeat apply page_blind_and_then; auto with page_blind;
    (apply page_blind_bind; [auto with page_blind|]);
    intros x; auto with page_blind.
Qed.

Lemma page_blind_parseHash_st hash : page_blind (parseHash_st hash).
Proof.
  unfold parseHash_st.
  apply page_blind_try_catch; [|intros e; apply page_blind_ret].
  apply page_blind_bind; [apply page_blind_lift|]. intros decoded.
  apply page_blind_bind; [apply page_blind_lift|]. intros data.
  apply page_blind_bind; [apply page_blind_containsReportData_st|].
  intros ok. destruct (negb ok); [apply page_blind_ret|].
  apply page_blind_bind; [apply page_blind_Get_st|]. intros sender.
  apply page_blind_bind; [apply page_blind_Get_st|]. intros received_at.
  apply page_blind_bind; [apply page_blind_Get_st|]. intros trackers.
  apply page_blind_ret.
Qed.

Lemma runs_as_ret {A : Type} (a : A) : runs_as (Normal a) (ret a).
Proof. intros w _. reflexivity. Qed.

Lemma runs_as_lift {A : Type} (c : completion A) : runs_as c (lift c).
Proof. intros w _. reflexivity. Qed.

Lemma runs_as_bind {A B : Type} c (k : A -> completion B) m k' :
  runs_as c m -> (forall a, runs_as (k a) (k' a)) ->
  runs_as (bind c k) (bind_st m k').
Proof.
  intros Hm Hk w Hw. unfold bind_st. rewrite (Hm w Hw).
  destruct c as [a|e]; [apply (Hk a w Hw) | reflexivity].
Qed.

Lemma runs_as_try_catch {A : Type} (c : completion A) h m h' :
  runs_as c m -> (forall e, runs_as (h e) (h' e)) ->
  runs_as (try_catch c h) (try_catch_st m h').
Proof.
  intros Hm Hk w Hw. unfold try_catch_st. rewrite (Hm w Hw).
  destruct c as [a|e]; [reflexivity | apply (Hk e w Hw)].
Qed.

Lemma runs_as_Get v p : runs_as (Get v p) (Get_st v p).
Proof.
  intros w Hw. unfold Get_st, Get.
  destruct v; try reflexivity;
    cbn [own_property]; try (destruct (lookup_prop _ _); [reflexivity|]);
    unfold bind_st, read_world, ret; now rewrite (Hw _ p).
Qed.

Lemma runs_as_and_then a b a' b' :
  runs_as a a' -> runs_as b b' -> runs_as (a &&& b) (a' &&~ b').
Proof.
  intros Ha Hb w Hw. unfold and_then_st, bind_st. rewrite (Ha w Hw).
  destruct a as [[|]|e]; cbn [and_then]; [apply (Hb w Hw) | |]; reflexivity.
Qed.

Lemma runs_as_containsReportData parsed :
  runs_as (containsReportData parsed) (containsReportData_st parsed).
Proof.
  unfold containsReportData, containsReportData_st.
  repeat apply runs_as_and_then; try apply runs_as_ret;
    (apply runs_as_bind; [apply runs_as_Get|]); intros x;
    first [apply runs_as_ret | apply runs_as_lift].
Qed.

(** With the prototypes as built in, [parseHash] in a world is the
    [parseHash] of the fragment, and the world is left as it is. *)
Lemma runs_as_parseHash hash : runs_as (parseHash hash) (parseHash_st hash).
Proof.
  unfold parseHash, parseHash_st.
  apply runs_as_try_catch; [|intros e; apply runs_as_ret].
  apply runs_as_bind; [apply runs_as_lift|]. intros decoded.
  apply runs_as_bind; [apply runs_as_lift|]. intros data.
  apply runs_as_bind; [apply runs_as_containsReportData|].
  intros ok. destruct (negb ok); [apply runs_as_ret|].
  apply runs_as_bind; [apply runs_as_Get|]. intros sender.
  apply runs_as_bind; [apply runs_as_Get|]. intros received_at.
  apply runs_as_bind; [apply runs_as_Get|]. intros trackers.
  apply runs_as_ret.
Qed.

(** In any world [parseHash] returns: what its body throws is caught. *)
Lemma parseHash_st_returns hash w :
  exists r, fst (parseHash_st hash w) = Normal r.
Proof.
  unfold parseHash_st, try_catch_st.
  match goal with |- context [bind_st ?m ?k w] => destruct (bind_st m k w) as [[a|e] w1] end.
  - now exists a.
  - now exists JNull.
Qed.

(** [updateReportData] changes the component only. *)
Lemma updateReportData_st_world w :
  exists r,
    parseHash_st (location_hash w) w = (Normal r, w) /\
    updateReportData_st w
    = (Normal tt,
       with_page w (location_hash w)
         {| reportData := r; listeners := listeners (page w) |}).
Proof.
  destruct (page_blind_parseHash_st (location_hash w) w) as [Hs _].
  destruct (parseHash_st_returns (location_hash w) w) as [r Hr].
  unfold updateReportData_st, bind_st at 1, read_world.
  unfold bind_st at 1.
  destruct (parseHash_st (location_hash w) w) as [c w1];
    cbn [fst snd] in *; subst w1 c.
  exists r. split; reflexivity.
Qed.

(** [updateReportData] does depend on the world: it reads the fragment of
    the window and sets [reportData]. *)
Example updateReportData_st_reads_location :
  page (snd (updateReportData_st sample_world))
  = {| reportData := ReportData (js "email@example.com")
                       (Finite 1654866361357 0)
                       [js "ads.facebook.com"; js "hi.com"];
       listeners := 0 |} /\
  page (snd (updateReportData_st
               (with_page sample_world array_hash initial_component)))
  = {| reportData := JNull; listeners := 0 |}.
Proof. split; vm_compute; reflexivity. Qed.

(** A property that a script adds to a prototype is read like an own one:
    line 213 finds the inherited [sender]. *)
Example parseHash_st_inherited :
  fst (parseHash_st (jsq "#{'received_at':1,'trackers':[]}") polluted_world)
  = Normal (ReportData (js "x") (Finite 1 0) []) /\
  parseHash (jsq "#{'received_at':1,'trackers':[]}") = Normal JNull.
Proof. split; vm_compute; reflexivity. Qed.

(** C8.  Two calls of [parseHash] on the same fragment text give equal
    results, and the result depends on no state of the page.  A call leaves
    the world as it is, so that a second call on the same text, run in the
    world the first one leaves, gives the same result.  The result is also
    the same when in between the window has got another fragment and the
    component another state, in particular after [updateReportData] has
    run: [parseHash] reads its argument, and the prototypes through the
    property reads of lines 213-216 and 197-199, and nothing else.  With
    the prototypes as built in, the result is the [parseHash] of the
    fragment. *)
Theorem parseHash_deterministic hash w hash' c' :
  snd (parseHash_st hash w) = w /\
  fst (parseHash_st hash (snd (parseHash_st hash w)))
  = fst (parseHash_st hash w) /\
  fst (parseHash_st hash (with_page w hash' c'))
  = fst (parseHash_st hash w) /\
  fst (parseHash_st hash (snd (updateReportData_st w)))
  = fst (parseHash_st hash w) /\
  (built_in w -> fst (parseHash_st hash w) = parseHash hash).
Proof.
  destruct (page_blind_parseHash_st hash w) as [Hs Hf].
  split; [exact Hs|]. split; [now rewrite Hs|].
  split; [apply Hf; intros v p; reflexivity|]. split.
  - destruct (updateReportData_st_world w) as (r & _ & ->).
    apply Hf. intros v p. reflexivity.
  - intros Hw. now rewrite (runs_as_parseHash hash w Hw).
Qed.

Lemma parseHash_deterministic_witness :
  snd (parseHash_st example_hash sample_world) = sample_world /\
  fst (parseHash_st example_hash
         (snd (parseHash_st example_hash sample_world)))
  = fst (parseHash_st example_hash sample_world) /\
  fst (parseHash_st example_hash
         (with_page sample_world array_hash
            {| reportData := JNull; listeners := 1 |}))
  = fst (parseHash_st example_hash sample_world) /\
  fst (parseHash_st example_hash (snd (updateReportData_st sample_world)))
  = fst (parseHash_st example_hash sample_world) /\
  fst (parseHash_st example_hash sample_world) = parseHash example_hash.
Proof.
  destruct (parseHash_deterministic example_hash sample_world array_hash
              {| reportData := JNull; listeners := 1 |})
    as (H1 & H2 & H3 & H4 & H5).
  split; [exact H1|]. split; [exact H2|]. split; [exact H3|].
  split; [exact H4|]. apply H5. intros v p. reflexivity.
Defined.

(** * Further properties *)

(** ** The shape check and the result of the parse *)

(** X1.  [containsReportData] returns a boolean on every value, [null] and
    [undefined] included: the tests on the type come before the property
    reads, so no read throws. *)
Theorem containsReportData_never_throws v :
  (exists b, containsReportData v = Normal b) /\
  containsReportData JNull = Normal false /\
  containsReportData JUndefined = Normal false /\
  (Get JNull p_sender = Throw TypeError /\
   Get JUndefined p_sender = Throw TypeError).
Proof.
  split; [apply containsReportData_total|]. repeat split.
Qed.

Lemma containsReportData_ReportData S T ts :
  integral T -> containsReportData (ReportData S T ts) = Normal true.
Proof.
  intros Hi. apply containsReportData_valid.
  exists [ (js "sender", JString S); (js "received_at", JNumber T);
           (js "trackers", JArray (map JString ts)) ], S, T, ts.
  repeat split; auto.
Qed.

(** X2.  What [parseHash] returns has the type it declares: it is [null],
    or an object that passes [containsReportData] again and whose three
    reads give a string, a Number and an array; it is never [undefined]. *)
Theorem parseHash_result_typed hash :
  exists r,
    parseHash hash = Normal r /\ r <> JUndefined /\
    (r = JNull \/
     containsReportData r = Normal true /\
     exists S T ts,
       Get r p_sender = Normal (JString S) /\
       Get r p_received_at = Normal (JNumber T) /\
       Get r p_trackers = Normal (JArray (map JString ts))).
Proof.
  destruct (parseHash_result hash)
    as [H|(props & S & T & ts & _ & _ & _ & Hi & _ & H)]; rewrite H.
  - exists JNull. split; [reflexivity|]. split; [discriminate|now left].
  - exists (ReportData S T ts).
    split; [reflexivity|]. split; [discriminate|right].
    split; [now apply containsReportData_ReportData|].
    exists S, T, ts. repeat split.
Qed.

Lemma Get_agree props props' :
  (forall p, lookup_prop (prop_key p) props
             = lookup_prop (prop_key p) props') ->
  forall p, Get (JObject props) p = Get (JObject props') p.
Proof. intros H p. unfold Get. rewrite (H p). reflexivity. Qed.

Lemma shape_agree props props' :
  (forall p, lookup_prop (prop_key p) props
             = lookup_prop (prop_key p) props') ->
  shape_of_properties props = shape_of_properties props'.
Proof.
  intros H. unfold shape_of_properties.
  pose proof (H p_sender) as Hs. pose proof (H p_received_at) as Hr.
  pose proof (H p_trackers) as Ht. unfold prop_key in Hs, Hr, Ht.
  rewrite Hs, Hr, Ht. reflexivity.
Qed.

(** X3.  [containsReportData] and [parseHash] read three properties of the
    decoded record and nothing else: two fragments whose records agree on
    [sender], [received_at] and [trackers] get the same verdict and the
    same result, whatever other fields they hold and in whatever order. *)
Theorem parseHash_reads_three_properties hash hash' props props' :
  decoded_body hash = Normal (JObject props) ->
  decoded_body hash' = Normal (JObject props') ->
  (forall p, lookup_prop (prop_key p) props
             = lookup_prop (prop_key p) props') ->
  containsReportData (JObject props) = containsReportData (JObject props') /\
  parseHash hash = parseHash hash'.
Proof.
  intros Hd Hd' H.
  assert (Hc : containsReportData (JObject props)
               = containsReportData (JObject props')).
  { rewrite !containsReportData_object. f_equal. now apply shape_agree. }
  split; [exact Hc|].
  rewrite !parseHash_decoded, Hd, Hd', Hc.
  destruct (containsReportData (JObject props')) as [[]|]; try reflexivity.
  rewrite !(Get_agree props props' H). reflexivity.
Qed.

Lemma parseHash_reads_three_properties_witness :
  containsReportData (JObject example_properties)
  = containsReportData (JObject reordered_properties) /\
  parseHash example_hash = parseHash reordered_hash.
Proof.
  apply (parseHash_reads_three_properties example_hash reordered_hash
           example_properties reordered_properties).
  - vm_compute. reflexivity.
  - vm_compute. reflexivity.
  - intros []; vm_compute; reflexivity.
Defined.

(** ** A percent sign that starts no escape *)

Lemma hex_digit_percent : hex_digit 37 = None.
Proof. reflexivity. Qed.

Lemma hex_pair_percent_r h : hex_pair h 37 = None.
Proof. unfold hex_pair. rewrite hex_digit_percent. now destruct (hex_digit h). Qed.

(** An escape read before a percent sign that starts none lies wholly before
    it. *)
Lemma percent_octet_before pre t b rest :
  percent_octet (37 :: t) = None ->
  percent_octet (pre ++ 37 :: t) = Some (b, rest) ->
  exists p h l pre',
    pre = p :: h :: l :: pre' /\ rest = pre' ++ 37 :: t.
Proof.
  intros Ht H.
  destruct pre as [|p [|h [|l pre']]]; cbn [app] in H.
  - congruence.
  - unfold percent_octet in H. destruct t as [|l t']; [discriminate|].
    destruct (p =? 37); [|discriminate].
    change (hex_pair 37 l) with (@None Z) in H. discriminate.
  - unfold percent_octet in H.
    destruct (p =? 37); [|discriminate].
    rewrite hex_pair_percent_r in H. discriminate.
  - exists p, h, l, pre'. split; [reflexivity|].
    unfold percent_octet in H.
    destruct (p =? 37); [|discriminate].
    destruct (hex_pair h l); [|discriminate].
    now injection H as _ <-.
Qed.

Lemma continuation_octets_before t k :
  percent_octet (37 :: t) = None ->
  forall pre bs rest,
    continuation_octets k (pre ++ 37 :: t) = Some (bs, rest) ->
    exists pre',
      rest = pre' ++ 37 :: t /\ (List.length pre' <= List.length pre)%nat.
Proof.
  intros Ht. induction k as [|k IH]; intros pre bs rest H; cbn in H.
  - injection H as _ <-. exists pre. split; [reflexivity|lia].
  - destruct (percent_octet (pre ++ 37 :: t)) as [[b r]|] eqn:Hp;
      [|discriminate].
    destruct (percent_octet_before _ _ _ _ Ht Hp)
      as (p & h & l & pre' & -> & ->).
    destruct (continuation_octets k (pre' ++ 37 :: t)) as [[bs' r']|] eqn:Hc;
      [|discriminate].
    injection H as _ <-.
    destruct (IH _ _ _ Hc) as (pre'' & -> & Hl).
    exists pre''. split; [reflexivity|]. cbn [List.length]. lia.
Qed.

Lemma Decode_stray_percent t n :
  percent_octet (37 :: t) = None ->
  forall pre fuel,
    (List.length pre <= n)%nat ->
    (List.length (pre ++ 37%Z :: t) <= fuel)%nat ->
    Decode fuel (pre ++ 37 :: t) = Throw URIError.
Proof.
  intros Ht. induction n as [|n IH]; intros pre fuel Hn Hfuel.
  - destruct pre; [|cbn in Hn; lia].
    cbn [app] in *. destruct fuel as [|fuel]; [cbn in Hfuel; lia|].
    cbn [Decode]. change (negb (37 =? 37)) with false. cbv iota.
    rewrite Ht. reflexivity.
  - destruct pre as [|c pre]; [apply (IH []); [cbn; lia|exact Hfuel]|].
    cbn [app List.length] in *.
    destruct fuel as [|fuel]; [lia|].
    cbn [Decode]. destruct (negb (c =? 37)).
    + rewrite (IH pre fuel) by lia. reflexivity.
    + destruct (percent_octet (c :: pre ++ 37 :: t)) as [[b rest1]|] eqn:Hp;
        [|reflexivity].
      destruct (percent_octet_before (c :: pre) t b rest1 Ht Hp)
        as (p & h & l & pre' & Hpre & ->).
      injection Hpre as -> ->.
      rewrite length_app in Hfuel. cbn [List.length] in *.
      destruct (leading_ones b =? 0).
      * rewrite (IH pre' fuel); [reflexivity|lia|rewrite length_app; cbn; lia].
      * destruct ((leading_ones b =? 1) || (4 <? leading_ones b));
          [reflexivity|].
        destruct (continuation_octets _ (pre' ++ 37 :: t))
          as [[conts rest2]|] eqn:Hc; [|reflexivity].
        destruct (continuation_octets_before t _ Ht _ _ _ Hc)
          as (pre'' & -> & Hl).
        destruct (utf8_code_point b conts); [|reflexivity].
        rewrite (IH pre'' fuel); [reflexivity|lia|rewrite length_app; cbn; lia].
Qed.

Lemma decodeURIComponent_stray_percent pre t :
  percent_octet (37 :: t) = None ->
  decodeURIComponent (pre ++ 37 :: t) = Throw URIError.
Proof.
  intros Ht. unfold decodeURIComponent.
  apply (Decode_stray_percent t (List.length pre)); auto.
Qed.

(** X4.  A percent sign that is not followed by two hexadecimal digits,
    anywhere in the body, makes [parseHash] return [null], whatever comes
    before and after it. *)
Theorem parseHash_stray_percent c pre t :
  percent_octet (37 :: t) = None ->
  decodeURIComponent (pre ++ 37 :: t) = Throw URIError /\
  parseHash (c :: pre ++ 37 :: t) = Normal JNull.
Proof.
  intros Ht.
  pose proof (decodeURIComponent_stray_percent pre t Ht) as Hd.
  split; [exact Hd|].
  apply parseHash_throw with URIError. unfold decoded_body, substring.
  cbn [skipn]. rewrite Hd. reflexivity.
Qed.

Lemma parseHash_stray_percent_witness :
  decodeURIComponent
    (jsq "{'sender':'50" ++ 37 :: jsq "off@example.com','received_at':1,'trackers':[]}")
  = Throw URIError /\
  parseHash
    (35 :: jsq "{'sender':'50"
        ++ 37 :: jsq "off@example.com','received_at':1,'trackers':[]}")
  = Normal JNull.
Proof.
  apply (parseHash_stray_percent 35 (jsq "{'sender':'50")
           (jsq "off@example.com','received_at':1,'trackers':[]}")).
  vm_compute. reflexivity.
Defined.

(** ** The component *)

Lemma render_ReportData S T ts :
  render (ReportData S T ts) =
  Normal (view_report (JString S) (JNumber T)
            (JNumber (number_of_nat (List.length ts)))
            (map (fun t => (JString t, JString t)) ts)).
Proof.
  unfold render, ReportData. cbn.
  rewrite length_map, map_map. reflexivity.
Qed.

Lemma render_typed v : typed_state v -> exists w, render v = Normal w.
Proof.
  intros [->|[->|(S & T & ts & _ & ->)]].
  - now exists view_loading.
  - now exists view_load_error.
  - eexists. apply render_ReportData.
Qed.

Lemma render_loading v : render v = Normal view_loading <-> v = JUndefined.
Proof.
  split; [|intros ->; reflexivity].
  destruct v; try reflexivity; try discriminate.
  unfold render, Get. cbn [typeof String.eqb Ascii.eqb Bool.eqb is_null bind].
  destruct (lookup_prop (prop_key p_trackers) properties) as [[]|];
    cbn; discriminate.
Qed.

Lemma render_load_error v : render v = Normal view_load_error <-> v = JNull.
Proof.
  split; [|intros ->; reflexivity].
  destruct v; try reflexivity; try discriminate.
  unfold render, Get. cbn [typeof String.eqb Ascii.eqb Bool.eqb is_null bind].
  destruct (lookup_prop (prop_key p_trackers) properties) as [[]|];
    cbn; discriminate.
Qed.

Lemma updateReportData_result hash c :
  exists r,
    parseHash hash = Normal r /\
    updateReportData hash c
    = Normal {| reportData := r; listeners := listeners c |} /\
    r <> JUndefined /\ typed_state r.
Proof.
  unfold updateReportData.
  destruct (parseHash_result hash)
    as [H|(props & S & T & ts & _ & _ & _ & Hi & _ & H)]; rewrite H.
  - exists JNull. repeat split; [discriminate|]. right. now left.
  - exists (ReportData S T ts). repeat split; [discriminate|].
    right. right. now exists S, T, ts.
Qed.

Lemma step_result c ev :
  exists c',
    step c ev = Normal c' /\
    (typed_state (reportData c) -> typed_state (reportData c')) /\
    (reportData c <> JUndefined -> reportData c' <> JUndefined) /\
    (is_effect ev = true -> reportData c' <> JUndefined) /\
    (is_effect ev = false -> listeners c = O ->
     c' = c).
Proof.
  destruct ev as [hash|hash|]; cbn [step is_effect].
  - destruct (updateReportData_result hash c) as (r & _ & -> & Hu & Ht).
    cbn [bind reportData listeners]. eexists. split; [reflexivity|].
    cbn [reportData]. repeat split; auto; discriminate.
  - destruct (listeners c) eqn:Hl.
    + exists c. repeat split; auto; discriminate.
    + destruct (updateReportData_result hash c) as (r & _ & -> & Hu & Ht).
      eexists. split; [reflexivity|]. cbn [reportData].
      repeat split; auto; discriminate.
  - eexists. split; [reflexivity|]. cbn [reportData].
    repeat split; auto; try discriminate.
    intros _ Hl. destruct c as [r n]. cbn in *. now subst n.
Qed.

Lemma run_result evs :
  forall c,
    exists c',
      run c evs = Normal c' /\
      (typed_state (reportData c) -> typed_state (reportData c')) /\
      (reportData c <> JUndefined -> reportData c' <> JUndefined) /\
      (existsb is_effect evs = true -> reportData c' <> JUndefined) /\
      (existsb is_effect evs = false -> listeners c = O -> c' = c).
Proof.
  induction evs as [|ev evs IH]; intros c.
  - exists c. repeat split; auto; discriminate.
  - destruct (step_result c ev) as (c1 & Hs & Ht1 & Hu1 & He1 & Hn1).
    destruct (IH c1) as (c2 & Hr & Ht2 & Hu2 & He2 & Hn2).
    exists c2. cbn [run existsb]. rewrite Hs. cbn [bind].
    split; [exact Hr|]. repeat split; auto.
    + intros He. apply orb_true_iff in He as [He|He]; auto.
    + intros He Hl. apply orb_false_iff in He as [He' He''].
      pose proof (Hn1 He' Hl) as Hc1. subst c1. now apply Hn2.
Qed.

(** X5.  Whatever the events, the component never throws: every event is
    handled, [reportData] always holds [undefined], [null] or a
    [ReportData], as line 29 declares, and rendering it succeeds, the reads
    of [sender], [received_at], [trackers.length] and [trackers.map]
    included. *)
Theorem component_never_throws evs :
  exists c w,
    run initial_component evs = Normal c /\
    typed_state (reportData c) /\
    render (reportData c) = Normal w.
Proof.
  destruct (run_result evs initial_component) as (c & Hr & Ht & _).
  assert (Hc : typed_state (reportData c)) by (apply Ht; now left).
  destruct (render_typed _ Hc) as [w Hw].
  now exists c, w.
Qed.

(** X6.  The loading message is shown exactly as long as the effect has not
    run: before it, no event changes [reportData]; once it has run,
    [reportData] is never [undefined] again. *)
Theorem loading_only_before_effect evs c :
  run initial_component evs = Normal c ->
  (render (reportData c) = Normal view_loading
   <-> existsb is_effect evs = false).
Proof.
  intros Hr.
  destruct (run_result evs initial_component) as (c' & Hr' & _ & _ & He & Hn).
  rewrite Hr in Hr'. injection Hr' as <-.
  rewrite render_loading. split.
  - intros Hu. destruct (existsb is_effect evs); [|reflexivity].
    now elim (He eq_refl).
  - intros Hf. rewrite (Hn Hf eq_refl). reflexivity.
Qed.

Lemma loading_only_before_effect_witness :
  render JUndefined = Normal view_loading
  <-> existsb is_effect [HashChange example_hash; Cleanup] = false.
Proof.
  apply (loading_only_before_effect [HashChange example_hash; Cleanup]
           initial_component).
  reflexivity.
Defined.

Lemma run_hashchange_ignored hashes :
  forall c, listeners c = O -> run c (map HashChange hashes) = Normal c.
Proof.
  induction hashes as [|h hs IH]; intros c Hl; [reflexivity|].
  cbn [map run step]. rewrite Hl. cbn [bind]. now apply IH.
Qed.

(** X7.  The cleanup undoes the registration of the effect: after an effect
    and its cleanup, [hashchange] events no longer change [reportData],
    which stays what the effect read. *)
Theorem hashchange_after_cleanup hash hashes c :
  listeners c = O ->
  run c (Effect hash :: Cleanup :: map HashChange hashes)
  = (r <- parseHash hash ;; Normal {| reportData := r; listeners := 0 |}).
Proof.
  intros Hl. cbn [run step].
  destruct (updateReportData_result hash c) as (r & Hp & -> & _).
  rewrite Hp, Hl. cbn [bind reportData listeners Nat.pred].
  now apply run_hashchange_ignored.
Qed.

Lemma hashchange_after_cleanup_witness :
  run initial_component
    (Effect array_hash :: Cleanup :: map HashChange [example_hash])
  = (r <- parseHash array_hash ;;
     Normal {| reportData := r; listeners := 0 |}).
Proof.
  apply (hashchange_after_cleanup array_hash [example_hash]
           initial_component).
  reflexivity.
Defined.

Lemma NoDup_map_JString ts : NoDup ts -> NoDup (map JString ts).
Proof.
  induction 1 as [|t ts Hn _ IH]; cbn [map]; constructor; [|exact IH].
  intros Hin. apply in_map_iff in Hin as (t' & Ht' & Hin).
  injection Ht' as ->. contradiction.
Qed.

(** X8.  Whatever fragment the effect read, a [hashchange] event that
    reaches the listener the effect registered makes [reportData] the
    record of the fragment the window has then, when that fragment holds a
    valid record; so does the effect itself when it reads that fragment.
    For that record the component returns the report with the sender and
    the timestamp of the record, a count equal to the number of its
    trackers, and one list item for each tracker, in their order, with the
    tracker for key and text.  The keys of the items are pairwise distinct
    exactly when the trackers are. *)
Theorem report_view hash0 hash props S T ts c :
  decoded_body hash = Normal (JObject props) ->
  lookup_prop (js "sender") props = Some (JString S) ->
  lookup_prop (js "received_at") props = Some (JNumber T) ->
  integral T ->
  lookup_prop (js "trackers") props = Some (JArray (map JString ts)) ->
  exists c0 c1 c2,
    step c (Effect hash0) = Normal c0 /\
    step c0 (HashChange hash) = Normal c1 /\
    reportData c1 = ReportData S T ts /\
    step c (Effect hash) = Normal c2 /\
    reportData c2 = ReportData S T ts /\
    render (ReportData S T ts)
    = Normal (view_report (JString S) (JNumber T)
                (JNumber (number_of_nat (List.length ts)))
                (map (fun t => (JString t, JString t)) ts)) /\
    (NoDup (map fst (map (fun t => (JString t, JString t)) ts))
     <-> NoDup ts).
Proof.
  intros Hd Hs Hr Hi Ht.
  pose proof (parseHash_accepts hash props S T ts Hd Hs Hr Hi Ht) as Hp.
  destruct (updateReportData_result hash0 c) as (r0 & Hp0 & _).
  exists {| reportData := r0; listeners := Datatypes.S (listeners c) |},
         {| reportData := ReportData S T ts;
            listeners := Datatypes.S (listeners c) |},
         {| reportData := ReportData S T ts;
            listeners := Datatypes.S (listeners c) |}.
  cbn [step listeners reportData]. unfold updateReportData.
  rewrite Hp, Hp0. cbn [bind listeners reportData].
  repeat split; try apply render_ReportData.
  - rewrite map_map. cbn [fst]. apply NoDup_map_inv.
  - rewrite map_map. cbn [fst]. apply NoDup_map_JString.
Qed.

Lemma report_view_witness :
  exists c0 c1 c2,
    step initial_component (Effect array_hash) = Normal c0 /\
    step c0 (HashChange example_hash) = Normal c1 /\
    reportData c1
    = ReportData (js "email@example.com") (Finite 1654866361357 0)
        [js "ads.facebook.com"; js "hi.com"] /\
    step initial_component (Effect example_hash) = Normal c2 /\
    reportData c2
    = ReportData (js "email@example.com") (Finite 1654866361357 0)
        [js "ads.facebook.com"; js "hi.com"] /\
    render (ReportData (js "email@example.com") (Finite 1654866361357 0)
              [js "ads.facebook.com"; js "hi.com"])
    = Normal (view_report (JString (js "email@example.com"))
                (JNumber (Finite 1654866361357 0))
                (JNumber (number_of_nat 2))
                (map (fun t => (JString t, JString t))
                   [js "ads.facebook.com"; js "hi.com"])) /\
    (NoDup (map fst (map (fun t => (JString t, JString t))
                       [js "ads.facebook.com"; js "hi.com"]))
     <-> NoDup [js "ads.facebook.com"; js "hi.com"]).
Proof.
  apply (report_view array_hash example_hash example_properties
           (js "email@example.com") (Finite 1654866361357 0)
           [js "ads.facebook.com"; js "hi.com"] initial_component).
  - vm_compute. reflexivity.
  - vm_compute. reflexivity.
  - vm_compute. reflexivity.
  - exists 1654866361357. reflexivity.
  - vm_compute. reflexivity.
Defined.

(** X9.  After the effect has read a fragment, the error message is shown
    if and only if the body of the fragment does not decode to a valid
    record, be it that the decoding throws or that the value has another
    shape; otherwise the report is shown. *)
Theorem load_error_view hash c :
  exists c',
    step c (Effect hash) = Normal c' /\
    (render (reportData c') = Normal view_load_error
     <-> ~ exists v, decoded_body hash = Normal v /\ valid_ReportData v) /\
    (render (reportData c') <> Normal view_load_error ->
     exists S T ts, reportData c' = ReportData S T ts).
Proof.
  destruct (updateReportData_result hash c) as (r & Hp & Hu & _).
  eexists. cbn [step]. rewrite Hu. cbn [bind reportData].
  split; [reflexivity|]. rewrite render_load_error.
  destruct (decoded_body hash) as [v|e] eqn:Hd.
  - destruct (valid_ReportData_dec v) as [Hv|Hv].
    + destruct Hv as (props & S & T & ts & -> & Hs & Hr & Hi & Ht).
      pose proof (parseHash_accepts hash props S T ts Hd Hs Hr Hi Ht) as Ha.
      rewrite Ha in Hp. injection Hp as <-. split.
      * split; [discriminate|]. intros Hn. elim Hn.
        exists (JObject props). split; [reflexivity|].
        now exists props, S, T, ts.
      * intros _. now exists S, T, ts.
    + pose proof (parseHash_rejects hash v Hd Hv) as Hn.
      rewrite Hn in Hp. injection Hp as <-. split.
      * split; [|reflexivity]. intros _ (v' & Hv' & Hvalid).
        injection Hv' as <-. contradiction.
      * intros Hne. now elim Hne.
  - pose proof (parseHash_throw hash e Hd) as Hn.
    rewrite Hn in Hp. injection Hp as <-. split.
    + split; [|reflexivity]. intros _ (v' & Hv' & _). discriminate.
    + intros Hne. now elim Hne.
Qed.

(** ** Percent-encoded bodies *)

Lemma hex_digit_hex_upper d :
  0 <= d < 16 -> hex_digit (hex_upper d) = Some d.
Proof.
  intros Hd. unfold hex_digit, hex_upper, is_digit.
  destruct (Z.ltb_spec d 10).
  - replace ((48 <=? 48 + d) && (48 + d <=? 57)) with true by lia.
    f_equal. lia.
  - replace ((48 <=? 55 + d) && (55 + d <=? 57)) with false by lia.
    replace ((65 <=? 55 + d) && (55 + d <=? 70)) with true by lia.
    f_equal. lia.
Qed.

Lemma percent_octet_escape b rest :
  is_octet b -> percent_octet (percent_escape b ++ rest) = Some (b, rest).
Proof.
  unfold is_octet. intros Hb. unfold percent_escape, percent_octet, hex_pair.
  cbn [app]. change (37 =? 37) with true. cbv iota.
  rewrite !hex_digit_hex_upper by (Z.div_mod_to_equations; lia).
  do 2 f_equal. Z.div_mod_to_equations. lia.
Qed.

Lemma continuation_octets_escape bs rest :
  Forall is_octet bs ->
  continuation_octets (List.length bs) (flat_map percent_escape bs ++ rest)
  = Some (bs, rest).
Proof.
  induction 1 as [|b bs Hb _ IH]; [reflexivity|].
  cbn [List.length flat_map continuation_octets].
  rewrite <- app_assoc, percent_octet_escape by exact Hb.
  rewrite IH. reflexivity.
Qed.

Lemma land_low_bits x k :
  0 <= k -> Z.land x (Z.ones k) = x mod 2 ^ k.
Proof. intros Hk. now apply Z.land_ones. Qed.

Lemma lor_shiftl_6 x y :
  0 <= y < 64 -> Z.lor (Z.shiftl x 6) y = 64 * x + y.
Proof.
  intros Hy.
  assert (Hland : Z.land (Z.shiftl x 6) y = 0).
  { apply Z.bits_inj'. intros n Hn.
    rewrite Z.land_spec, Z.bits_0.
    destruct (Z.lt_ge_cases n 6) as [Hlt|Hge].
    - rewrite Z.shiftl_spec_low by exact Hlt. reflexivity.
    - destruct (Z.eq_dec y 0) as [->|Hy0].
      + rewrite Z.bits_0. apply andb_false_r.
      + rewrite (Z.bits_above_log2 y n); [apply andb_false_r|lia|].
        apply Z.lt_le_trans with 6; [|exact Hge].
        apply Z.log2_lt_pow2; lia. }
  rewrite <- Z.lxor_lor by exact Hland.
  rewrite <- Z.add_nocarry_lxor by exact Hland.
  rewrite Z.shiftl_mul_pow2 by lia. change (2 ^ 6) with 64. lia.
Qed.

Lemma forallb_range (P : Z -> bool) lo n :
  forallb P (map (fun k => lo + Z.of_nat k) (seq 0 n)) = true ->
  forall y, lo <= y < lo + Z.of_nat n -> P y = true.
Proof.
  intros H y Hy. rewrite forallb_forall in H. apply H.
  apply in_map_iff. exists (Z.to_nat (y - lo)). split; [lia|].
  apply in_seq. lia.
Qed.

(** A continuation octet has [10] for its two high bits. *)
Lemma continuation_bits y :
  0 <= y < 64 -> (Z.land (128 + y) 192 =? 128) = true.
Proof.
  intros Hy.
  apply (forallb_range (fun c => Z.land c 192 =? 128) 128 64);
    [vm_compute; reflexivity|lia].
Qed.

Lemma payload y : 0 <= y < 64 -> Z.land (128 + y) 63 = y.
Proof.
  intros Hy. change 63 with (Z.ones 6). rewrite land_low_bits by lia.
  change (2 ^ 6) with 64. Z.div_mod_to_equations. lia.
Qed.

Lemma lead_payload base k x :
  0 <= k -> 0 <= x < 2 ^ k -> base mod 2 ^ k = 0 ->
  Z.land (base + x) (Z.ones k) = x.
Proof.
  intros Hk Hx Hbase. rewrite land_low_bits by exact Hk.
  rewrite <- Z.add_mod_idemp_l, Hbase by lia.
  apply Z.mod_small. lia.
Qed.

(** The octets of a code point beyond ASCII are a lead octet that announces
    their number and continuation octets, and Decode reads the code point
    back from them. *)
Lemma utf8_code_point_octets v :
  scalar_value v -> 128 <= v ->
  exists b conts,
    utf8_octets v = b :: conts /\
    Forall is_octet (b :: conts) /\
    leading_ones b = Z.of_nat (List.length conts) + 1 /\
    2 <= leading_ones b <= 4 /\
    utf8_code_point b conts = Some v.
Proof.
  intros [Hv Hs] H128. unfold utf8_octets.
  replace (v <? 128) with false by lia.
  destruct (Z.ltb_spec v 2048) as [H2|H2];
    [|destruct (Z.ltb_spec v 65536) as [H3|H3]].
  - assert (Hq : 2 <= v / 64 < 32 /\ 0 <= v mod 64 < 64 /\
                 64 * (v / 64) + v mod 64 = v)
      by (Z.div_mod_to_equations; lia).
    destruct Hq as (Hq1 & Hq2 & Hq3).
    assert (Hn : leading_ones (192 + v / 64) = 2)
      by (unfold leading_ones;
          repeat match goal with
                 | |- context [?a <? ?b] => destruct (Z.ltb_spec a b); try lia
                 end).
    eexists. eexists. split; [reflexivity|].
    split; [repeat constructor; unfold is_octet; lia|].
    split; [rewrite Hn; reflexivity|]. split; [lia|].
    unfold utf8_code_point. rewrite Hn. cbn [fold_left forallb].
    change (Z.shiftr 255 (2 + 1)) with (Z.ones 5).
    rewrite (lead_payload 192 5) by (auto; lia || reflexivity).
    rewrite payload, lor_shiftl_6, continuation_bits by lia.
    change (2 =? 2) with true. cbv iota. rewrite Hq3.
    replace (128 <=? v) with true by lia.
    replace (v <=? 1114111) with true by lia.
    replace (negb ((55296 <=? v) && (v <=? 57343))) with true by lia.
    reflexivity.
  - assert (Hq : 0 <= v / 4096 < 16 /\ 0 <= (v / 64) mod 64 < 64 /\
                 0 <= v mod 64 < 64 /\
                 64 * (64 * (v / 4096) + (v / 64) mod 64) + v mod 64 = v)
      by (Z.div_mod_to_equations; lia).
    destruct Hq as (Hq1 & Hq2 & Hq3 & Hq4).
    assert (Hn : leading_ones (224 + v / 4096) = 3)
      by (unfold leading_ones;
          repeat match goal with
                 | |- context [?a <? ?b] => destruct (Z.ltb_spec a b); try lia
                 end).
    eexists. eexists. split; [reflexivity|].
    split; [repeat constructor; unfold is_octet; lia|].
    split; [rewrite Hn; reflexivity|]. split; [lia|].
    unfold utf8_code_point. rewrite Hn. cbn [fold_left forallb].
    change (Z.shiftr 255 (3 + 1)) with (Z.ones 4).
    rewrite (lead_payload 224 4) by (auto; lia || reflexivity).
    rewrite !payload, !lor_shiftl_6, !continuation_bits by lia.
    change (3 =? 2) with false. change (3 =? 3) with true. cbv iota.
    rewrite Hq4.
    replace (2048 <=? v) with true by lia.
    replace (v <=? 1114111) with true by lia.
    replace (negb ((55296 <=? v) && (v <=? 57343))) with true by lia.
    reflexivity.
  - assert (Hq : 0 <= v / 262144 < 8 /\ 0 <= (v / 4096) mod 64 < 64 /\
                 0 <= (v / 64) mod 64 < 64 /\ 0 <= v mod 64 < 64 /\
                 64 * (64 * (64 * (v / 262144) + (v / 4096) mod 64)
                       + (v / 64) mod 64) + v mod 64 = v)
      by (Z.div_mod_to_equations; lia).
    destruct Hq as (Hq1 & Hq2 & Hq3 & Hq4 & Hq5).
    assert (Hn : leading_ones (240 + v / 262144) = 4)
      by (unfold leading_ones;
          repeat match goal with
                 | |- context [?a <? ?b] => destruct (Z.ltb_spec a b); try lia
                 end).
    eexists. eexists. split; [reflexivity|].
    split; [repeat constructor; unfold is_octet; lia|].
    split; [rewrite Hn; reflexivity|]. split; [lia|].
    unfold utf8_code_point. rewrite Hn. cbn [fold_left forallb].
    change (Z.shiftr 255 (4 + 1)) with (Z.ones 3).
    rewrite (lead_payload 240 3) by (auto; lia || reflexivity).
    rewrite !payload, !lor_shiftl_6, !continuation_bits by lia.
    change (4 =? 2) with false. change (4 =? 3) with false. cbv iota.
    rewrite Hq5.
    replace (65536 <=? v) with true by lia.
    replace (v <=? 1114111) with true by lia.
    replace (negb ((55296 <=? v) && (v <=? 57343))) with true by lia.
    reflexivity.
Qed.

Lemma Decode_S fuel c rest :
  Decode (S fuel) (c :: rest) =
  if negb (c =? 37) then R <- Decode fuel rest ;; Normal (c :: R)
  else
    match percent_octet (c :: rest) with
    | None => Throw URIError
    | Some (b, rest1) =>
        if leading_ones b =? 0 then
          R <- Decode fuel rest1 ;; Normal (b :: R)
        else if (leading_ones b =? 1) || (4 <? leading_ones b) then
          Throw URIError
        else
          match continuation_octets (Z.to_nat (leading_ones b - 1)) rest1 with
          | None => Throw URIError
          | Some (conts, rest2) =>
              match utf8_code_point b conts with
              | None => Throw URIError
              | Some v =>
                  R <- Decode fuel rest2 ;;
                  Normal (UTF16EncodeCodePoint v ++ R)
              end
          end
    end.
Proof. reflexivity. Qed.

Lemma decodeURIComponent_plain c rest :
  (c =? 37) = false ->
  decodeURIComponent (c :: rest) =
  R <- decodeURIComponent rest ;; Normal (c :: R).
Proof.
  intros Hc. unfold decodeURIComponent. cbn [List.length].
  rewrite Decode_S, Hc. reflexivity.
Qed.

Lemma decodeURIComponent_escape b rest :
  is_octet b ->
  decodeURIComponent (percent_escape b ++ rest) =
  if leading_ones b =? 0 then
    R <- decodeURIComponent rest ;; Normal (b :: R)
  else if (leading_ones b =? 1) || (4 <? leading_ones b) then Throw URIError
  else
    match continuation_octets (Z.to_nat (leading_ones b - 1)) rest with
    | None => Throw URIError
    | Some (conts, rest2) =>
        match utf8_code_point b conts with
        | None => Throw URIError
        | Some v =>
            R <- decodeURIComponent rest2 ;;
            Normal (UTF16EncodeCodePoint v ++ R)
        end
    end.
Proof.
  intros Hb. pose proof (percent_octet_escape b rest Hb) as Hp.
  unfold decodeURIComponent at 1. unfold percent_escape in *.
  cbn [app List.length] in *. rewrite Decode_S, Hp.
  change (negb (37 =? 37)) with false. cbv iota.
  destruct (leading_ones b =? 0); [rewrite Decode_fuel by lia; reflexivity|].
  destruct ((leading_ones b =? 1) || (4 <? leading_ones b)); [reflexivity|].
  destruct (continuation_octets _ rest) as [[conts rest2]|] eqn:Hc;
    [|reflexivity].
  apply continuation_octets_length in Hc.
  destruct (utf8_code_point b conts); [|reflexivity].
  rewrite Decode_fuel by lia. reflexivity.
Qed.

Lemma decodeURIComponent_code_point v rest :
  scalar_value v ->
  decodeURIComponent (flat_map percent_escape (utf8_octets v) ++ rest) =
  R <- decodeURIComponent rest ;; Normal (UTF16EncodeCodePoint v ++ R).
Proof.
  intros Hv. destruct (Z.lt_ge_cases v 128) as [Hlt|Hge].
  - unfold utf8_octets. replace (v <? 128) with true by lia.
    cbn [flat_map]. rewrite app_nil_r.
    rewrite decodeURIComponent_escape by (destruct Hv; unfold is_octet; lia).
    unfold leading_ones. replace (v <? 128) with true by lia.
    change (0 =? 0) with true. cbv iota.
    unfold UTF16EncodeCodePoint. replace (v <=? 65535) with true by lia.
    reflexivity.
  - destruct (utf8_code_point_octets v Hv Hge)
      as (b & conts & -> & Hoct & Hn & Hn24 & Hcp).
    inversion Hoct as [|? ? Hb Hconts]; subst.
    cbn [flat_map]. rewrite <- app_assoc.
    rewrite decodeURIComponent_escape by exact Hb.
    replace (leading_ones b =? 0) with false by lia.
    replace ((leading_ones b =? 1) || (4 <? leading_ones b)) with false
      by lia.
    replace (Z.to_nat (leading_ones b - 1)) with (List.length conts) by lia.
    rewrite continuation_octets_escape by exact Hconts.
    rewrite Hcp. reflexivity.
Qed.

Lemma UTF16Encode_pair hi lo :
  is_high_surrogate hi = true -> is_low_surrogate lo = true ->
  scalar_value (pair_code_point hi lo) /\
  UTF16EncodeCodePoint (pair_code_point hi lo) = [hi; lo].
Proof.
  unfold is_high_surrogate, is_low_surrogate, pair_code_point,
    scalar_value, UTF16EncodeCodePoint.
  intros Hh Hl. split; [lia|].
  replace ((hi - 55296) * 1024 + (lo - 56320) + 65536 <=? 65535)
    with false by lia.
  f_equal; [|f_equal]; Z.div_mod_to_equations; lia.
Qed.

Lemma Encode_Decode unescaped n :
  forall s t,
    (List.length s <= n)%nat ->
    well_formed s = true -> escapes_percent unescaped s = true ->
    Encode unescaped s = Normal t ->
    decodeURIComponent t = Normal s.
Proof.
  induction n as [|n IH]; intros s t Hn Hwf Hesc He.
  - destruct s; [|cbn in Hn; lia]. injection He as <-. reflexivity.
  - destruct s as [|c rest]; [injection He as <-; reflexivity|].
    cbn [List.length] in Hn.
    apply well_formed_cons in Hwf as [Hc Hwf].
    unfold escapes_percent in Hesc. cbn [forallb] in Hesc.
    apply andb_true_iff in Hesc as [Hc37 Hesc].
    cbn [Encode] in He.
    destruct ((c <? 128) && unescaped c) eqn:Hkeep.
    + destruct (Encode unescaped rest) as [R|] eqn:HR; [|discriminate].
      injection He as <-.
      apply andb_true_iff in Hkeep as [_ Hu]. rewrite Hu in Hc37.
      rewrite decodeURIComponent_plain
        by (destruct (c =? 37); [discriminate Hc37|reflexivity]).
      rewrite (IH rest R) by (auto; lia). reflexivity.
    + destruct (is_low_surrogate c) eqn:Hlow; [discriminate|].
      destruct (is_high_surrogate c) eqn:Hhigh.
      * destruct rest as [|d rest']; [discriminate|].
        destruct (is_low_surrogate d) eqn:Hd; [|discriminate].
        destruct (Encode unescaped rest') as [R|] eqn:HR; [|discriminate].
        injection He as <-.
        apply well_formed_cons in Hwf as [_ Hwf].
        cbn [forallb] in Hesc. apply andb_true_iff in Hesc as [_ Hesc].
        destruct (UTF16Encode_pair c d Hhigh Hd) as [Hsv Hu].
        rewrite decodeURIComponent_code_point by exact Hsv.
        cbn [List.length] in Hn.
        rewrite (IH rest' R) by (auto; lia). cbn [bind].
        rewrite Hu. reflexivity.
      * destruct (Encode unescaped rest) as [R|] eqn:HR; [|discriminate].
        injection He as <-.
        assert (Hsv : scalar_value c).
        { unfold scalar_value, is_low_surrogate, is_high_surrogate in *.
          lia. }
        rewrite decodeURIComponent_code_point by exact Hsv.
        rewrite (IH rest R) by (auto; lia). cbn [bind].
        unfold UTF16EncodeCodePoint. replace (c <=? 65535) with true by lia.
        reflexivity.
Qed.


Lemma Encode_total unescaped n :
  forall s,
    (List.length s <= n)%nat -> paired_surrogates s = true ->
    exists t, Encode unescaped s = Normal t.
Proof.
  induction n as [|n IH]; intros s Hn Hp.
  - destruct s; [|cbn in Hn; lia]. now exists [].
  - destruct s as [|c rest]; [now exists []|].
    cbn [List.length] in Hn. cbn [paired_surrogates Encode] in *.
    destruct ((c <? 128) && unescaped c) eqn:Hkeep.
    + assert (Hrest : paired_surrogates rest = true).
      { apply andb_true_iff in Hkeep as [Hc _].
        unfold is_low_surrogate, is_high_surrogate in Hp.
        replace ((56320 <=? c) && (c <=? 57343)) with false in Hp by lia.
        replace ((55296 <=? c) && (c <=? 56319)) with false in Hp by lia.
        exact Hp. }
      destruct (IH rest ltac:(lia) Hrest) as [R ->]. eexists. reflexivity.
    + destruct (is_low_surrogate c); [discriminate|].
      destruct (is_high_surrogate c).
      * destruct rest as [|d rest']; [discriminate|].
        apply andb_true_iff in Hp as [Hd Hrest]. rewrite Hd.
        cbn [List.length] in Hn.
        destruct (IH rest' ltac:(lia) Hrest) as [R ->]. eexists. reflexivity.
      * destruct (IH rest ltac:(lia) Hp) as [R ->]. eexists. reflexivity.
Qed.

(** X10.  Percent-encoding is undone before the JSON is read.  A text
    encoded by ECMA-262's Encode, with any set of characters left
    unescaped as long as every percent sign of the text is escaped, and
    with the code points beyond ASCII written as the escaped octets of
    their UTF-8 encoding, is decoded back to the text, so that
    [parseHash] reads the JSON of the text itself.  Every text whose
    surrogates are paired has such an encoding. *)
Theorem parseHash_percent_encoded unescaped s c :
  well_formed s = true -> escapes_percent unescaped s = true ->
  (forall t, Encode unescaped s = Normal t ->
             decodeURIComponent t = Normal s /\
             decoded_body (c :: t) = JSON_parse s) /\
  (paired_surrogates s = true -> exists t, Encode unescaped s = Normal t).
Proof.
  intros Hwf Hesc. split.
  - intros t He.
    pose proof (Encode_Decode unescaped (List.length s) s t
                  (Nat.le_refl _) Hwf Hesc He) as Hd.
    split; [exact Hd|].
    unfold decoded_body, substring. cbn [skipn]. rewrite Hd. reflexivity.
  - apply (Encode_total unescaped (List.length s)). lia.
Qed.

Lemma parseHash_percent_encoded_witness :
  (forall t, Encode uriUnreserved unicode_json = Normal t ->
             decodeURIComponent t = Normal unicode_json /\
             decoded_body (35 :: t) = JSON_parse unicode_json) /\
  (paired_surrogates unicode_json = true ->
   exists t, Encode uriUnreserved unicode_json = Normal t).
Proof.
  apply (parseHash_percent_encoded uriUnreserved unicode_json 35).
  - vm_compute. reflexivity.
  - vm_compute. reflexivity.
Defined.

Lemma escapes_percent_uriUnreserved s :
  escapes_percent uriUnreserved s = true.
Proof.
  unfold escapes_percent. apply forallb_forall. intros c _.
  destruct (Z.eqb_spec c 37) as [->|]; reflexivity.
Qed.

Lemma well_formed_app a b :
  well_formed (a ++ b) = well_formed a && well_formed b.
Proof. apply forallb_app. Qed.

Lemma well_formed_hex_char d :
  0 <= d < 16 -> is_code_unit (hex_char d) = true.
Proof.
  intros Hd. unfold hex_char, is_code_unit. destruct (d <? 10); lia.
Qed.

Lemma well_formed_quote_char c :
  0 <= c < 65536 -> well_formed (quote_char c) = true.
Proof.
  intros Hc. unfold quote_char.
  repeat match goal with
         | |- context [if ?a =? ?b then _ else _] =>
             destruct (Z.eqb_spec a b); [reflexivity|]
         end.
  destruct (Z.ltb_spec c 32).
  - unfold well_formed. cbn [forallb].
    rewrite !well_formed_hex_char by (Z.div_mod_to_equations; lia).
    reflexivity.
  - unfold well_formed, is_code_unit. cbn [forallb].
    rewrite andb_true_r. lia.
Qed.

Lemma well_formed_quote s :
  well_formed s = true -> well_formed (quote s) = true.
Proof.
  intros Hs. unfold quote.
  change (34 :: flat_map quote_char s ++ [34])
    with ([34] ++ flat_map quote_char s ++ [34]).
  rewrite !well_formed_app. change (well_formed [34]) with true.
  rewrite andb_true_r. cbn [andb].
  induction s as [|c s IH]; [reflexivity|].
  apply well_formed_cons in Hs as [Hc Hs]. cbn [flat_map].
  rewrite well_formed_app, well_formed_quote_char, IH by (lia || exact Hs).
  reflexivity.
Qed.

Lemma well_formed_join ts :
  forallb well_formed ts = true ->
  well_formed (join_comma (map quote ts)) = true.
Proof.
  induction ts as [|t ts IH]; [reflexivity|].
  cbn [forallb]. intros Hwf. apply andb_true_iff in Hwf as [Ht Hts].
  destruct ts as [|t' ts].
  - cbn [map join_comma]. now apply well_formed_quote.
  - cbn [map]. rewrite join_comma_cons.
    change (44 :: ?l) with ([44] ++ l).
    rewrite !well_formed_app, well_formed_quote by exact Ht.
    pose proof (IH Hts) as IH'. cbn [map] in IH'. rewrite IH'. reflexivity.
Qed.

Lemma well_formed_integer_text z : well_formed (integer_text z) = true.
Proof.
  unfold integer_text. rewrite well_formed_app.
  destruct (decimal_digits (Z.abs z) (Z.abs_nonneg z))
    as (d & ds & -> & Hrange & _).
  change (48 + d :: map (fun d => 48 + d) ds)
    with (map (fun d => 48 + d) (d :: ds)).
  assert (Hd : well_formed (map (fun d => 48 + d) (d :: ds)) = true).
  { unfold well_formed. induction Hrange as [|x l Hx _ IH]; [reflexivity|].
    cbn [map forallb]. rewrite IH. unfold is_decimal_digit in Hx.
    unfold is_code_unit. lia. }
  rewrite Hd. destruct (z <? 0); reflexivity.
Qed.

Lemma well_formed_wire S T ts :
  well_formed S = true -> forallb well_formed ts = true ->
  well_formed (wire_json S T ts) = true.
Proof.
  intros HS Hts. unfold wire_json.
  repeat match goal with
         | |- context [?c :: ?l ++ ?r] =>
             change (c :: l ++ r) with ([c] ++ l ++ r)
         end.
  change (58 :: 91 :: join_comma (map quote ts) ++ [93; 125])
    with ([58; 91] ++ join_comma (map quote ts) ++ [93; 125]).
  rewrite !well_formed_app.
  rewrite !well_formed_quote by (exact HS || reflexivity).
  rewrite well_formed_integer_text, well_formed_join by exact Hts.
  reflexivity.
Qed.

(** X11.  A report whose JSON text has been through [encodeURIComponent]
    is parsed back to the report, whatever its strings hold: percent
    signs, quotation marks, characters beyond ASCII. *)
Theorem parseHash_encodeURIComponent S T ts t :
  well_formed S = true -> forallb well_formed ts = true ->
  is_binary64 T = true -> integral T ->
  encodeURIComponent (wire_json S T ts) = Normal t ->
  parseHash (35 :: t) = Normal (ReportData S T ts).
Proof.
  intros HS Hts Hb Hi He.
  pose proof (well_formed_wire S T ts HS Hts) as Hwf.
  apply parseHash_accepts
    with (props := [ (js "sender", JString S);
                     (js "received_at", JNumber T);
                     (js "trackers", JArray (map JString ts)) ]);
    try reflexivity; [|exact Hi].
  unfold decoded_body, substring. cbn [skipn].
  rewrite (Encode_Decode uriUnreserved _ _ t (Nat.le_refl _) Hwf
             (escapes_percent_uriUnreserved _) He).
  cbn [bind]. now apply JSON_parse_wire.
Qed.

Lemma parseHash_encodeURIComponent_witness :
  parseHash (35 :: unicode_encoded)
  = Normal (ReportData unicode_sender (Finite 1654866361357 0)
              [js "hi.com"]).
Proof.
  apply (parseHash_encodeURIComponent unicode_sender
           (Finite 1654866361357 0) [js "hi.com"] unicode_encoded).
  - vm_compute. reflexivity.
  - vm_compute. reflexivity.
  - vm_compute. reflexivity.
  - exists 1654866361357. reflexivity.
  - vm_compute. reflexivity.
Defined.

(** ** Timestamps *)

Lemma strip_zeros_spec p :
  forall e,
    Zpos p = Zpos (fst (strip_zeros p e)) * 2 ^ (snd (strip_zeros p e) - e) /\
    e <= snd (strip_zeros p e) /\
    Z.odd (Zpos (fst (strip_zeros p e))) = true.
Proof.
  induction p as [p _|p IH|]; intros e; cbn [strip_zeros fst snd].
  - rewrite Z.sub_diag. repeat split; lia.
  - destruct (IH (e + 1)) as (Hv & He & Ho).
    repeat split; [|lia|exact Ho].
    replace (snd (strip_zeros p (e + 1)) - e)
      with (Z.succ (snd (strip_zeros p (e + 1)) - (e + 1))) by lia.
    rewrite Z.pow_succ_r by lia. rewrite Pos2Z.inj_xO, Hv at 1. lia.
  - rewrite Z.sub_diag. repeat split; lia.
Qed.

Lemma number_of_Z_safe z :
  Z.abs z <= 2 ^ 53 ->
  is_binary64 (number_of_Z z) = true /\
  integral (number_of_Z z) /\
  integer_value (number_of_Z z) = z.
Proof.
  intros Hz. unfold number_of_Z, mk_finite.
  destruct (Z.abs z) as [|p|p] eqn:Habs; [| |lia].
  - assert (z = 0) by lia. subst z. repeat split. now exists 0.
  - destruct (strip_zeros_spec p 0) as (Hv & He & Ho).
    destruct (strip_zeros p 0) as [p' e']. cbn [fst snd] in *.
    rewrite Z.sub_0_r in Hv.
    assert (Hpow : 1 <= 2 ^ e')
      by (pose proof (Z.pow_pos_nonneg 2 e' ltac:(lia) He); lia).
    assert (Hp : Zpos p' < 2 ^ 53).
    { destruct (Z.eq_dec (Zpos p') (2 ^ 53)) as [Heq|Hne];
        [rewrite Heq in Ho; discriminate Ho|]. nia. }
    assert (Hm : Z.odd (if z <? 0 then Zneg p' else Zpos p') = true)
      by (destruct (z <? 0); [destruct p'; try discriminate|]; auto).
    assert (Ha : Z.abs (if z <? 0 then Zneg p' else Zpos p') = Zpos p')
      by (destruct (z <? 0); reflexivity).
    assert (Hval : (if z <? 0 then Zneg p' else Zpos p') * 2 ^ e' = z).
    { destruct (Z.ltb_spec z 0).
      - change (Zneg p') with (- Zpos p'). lia.
      - lia. }
    split; [|split].
    + unfold is_binary64. rewrite Hm, Ha. apply orb_true_iff. right.
      replace (Zpos p' <? 2 ^ 53) with true by lia.
      replace (-1074 <=? e') with true by lia.
      replace (Zpos p' * 2 ^ e' <? 2 ^ 1024) with true; [reflexivity|].
      symmetry. apply Z.ltb_lt. rewrite <- Hv.
      apply Z.le_lt_trans with (2 ^ 53); [lia|reflexivity].
    + exists z. rewrite Z.max_r by lia. rewrite Z.max_l by lia.
      change (2 ^ 0) with 1. lia.
    + unfold integer_value. replace (0 <=? e') with true by lia. exact Hval.
Qed.

(** X12.  Every integer timestamp up to [2^53] in magnitude, written in
    decimal, is read exactly: the number parser gives the Number of that
    integer, [Number.isInteger] holds of it, and the report comes back
    with [received_at] of that value. *)
Theorem parseHash_safe_integer z S ts :
  Z.abs z <= 2 ^ 53 ->
  well_formed S = true -> forallb well_formed ts = true ->
  (forall c rest,
      ends_number c = true ->
      parse_number (integer_text z ++ c :: rest)
      = Normal (number_of_Z z, c :: rest)) /\
  Number_isInteger (JNumber (number_of_Z z)) = true /\
  integer_value (number_of_Z z) = z /\
  parseHash (wire_fragment S (number_of_Z z) ts)
  = Normal (ReportData S (number_of_Z z) ts).
Proof.
  intros Hz HS Hts.
  destruct (number_of_Z_safe z Hz) as (Hb & Hi & Hv).
  split; [|split; [|split]].
  - intros c rest Hc. rewrite <- Hv at 1.
    now apply parse_number_integer.
  - now apply Number_isInteger_integral.
  - exact Hv.
  - now apply parseHash_wire_fragment.
Qed.

Lemma parseHash_safe_integer_witness :
  (forall c rest,
      ends_number c = true ->
      parse_number (integer_text (-9007199254740992) ++ c :: rest)
      = Normal (number_of_Z (-9007199254740992), c :: rest)) /\
  Number_isInteger (JNumber (number_of_Z (-9007199254740992))) = true /\
  integer_value (number_of_Z (-9007199254740992)) = -9007199254740992 /\
  parseHash (wire_fragment (js "a@b.com") (number_of_Z (-9007199254740992))
               [])
  = Normal (ReportData (js "a@b.com") (number_of_Z (-9007199254740992))
              []).
Proof.
  apply (parseHash_safe_integer (-9007199254740992) (js "a@b.com") []).
  - vm_compute. discriminate.
  - vm_compute. reflexivity.
  - vm_compute. reflexivity.
Defined.
